(** * zero-docs: content resolution, table of contents and search index

    A shallow embedding of [src/lib/markdown.ts] (slug resolution, the
    pattern-based table of contents, previous/next navigation) and of the
    search-index build script (discovery of [index.mdx] files, heading
    extraction, the batch job), with the properties of the specification
    stated and proved over it.

    Strings are JavaScript strings: finite sequences of UTF-16 code units.
    Regular-expression literals of the source are transcribed into a small
    abstract syntax and run by a backtracking matcher that follows the
    ECMAScript semantics (greedy quantifiers, ordered alternation,
    leftmost match, [lastIndex] advancing through a global search). *)

From Stdlib Require Import Ascii String.
From Stdlib Require Import List NArith ZArith Arith Bool Lia.
Import ListNotations.

Set Implicit Arguments.
Set Warnings "-register-all".

(* ================================================================== *)
(** * JavaScript strings *)

Module JS.

(** A UTF-16 code unit. *)
Abbreviation code_unit := N (only parsing).

(** A JavaScript string value. *)
Abbreviation jsstring := (list code_unit) (only parsing).

(** A string literal of the source, written as a Rocq string; the source
    literals used below are all ASCII. *)
Definition lit (s : string) : jsstring :=
  map N_of_ascii (list_ascii_of_string s).

Definition jsstring_eqb (a b : jsstring) : bool :=
  if list_eq_dec N.eq_dec a b then true else false.

Definition in_range (lo hi c : N) : bool :=
  ((lo <=? c) && (c <=? hi))%N.

Definition TAB : code_unit := 9%N.
Definition LF : code_unit := 10%N.
Definition CR : code_unit := 13%N.
Definition SPACE : code_unit := 32%N.
Definition HASH : code_unit := 35%N.
Definition DASH : code_unit := 45%N.
Definition SLASH : code_unit := 47%N.
Definition UNDERSCORE : code_unit := 95%N.

(** ECMAScript [LineTerminator]: LF, CR, LS (U+2028), PS (U+2029). *)
Definition isLineTerminator (c : code_unit) : bool :=
  ((c =? 10) || (c =? 13) || (c =? 8232) || (c =? 8233))%N.

(** ECMAScript [WhiteSpace]: TAB, VT, FF, ZWNBSP and the Unicode
    space separators (category Zs). *)
Definition isWhiteSpace (c : code_unit) : bool :=
  ((c =? 9) || (c =? 11) || (c =? 12) || (c =? 32) || (c =? 160)
   || (c =? 5760) || in_range 8192 8202 c || (c =? 8239) || (c =? 8287)
   || (c =? 12288) || (c =? 65279))%N.

Definition isUpperAZ (c : code_unit) : bool := in_range 65 90 c.
Definition isLowerAZ (c : code_unit) : bool := in_range 97 122 c.
Definition isDigit (c : code_unit) : bool := in_range 48 57 c.
Definition isAscii (c : code_unit) : bool := (c <? 128)%N.

(** The character classes of the source's regular expressions. *)

(** [\s] *)
Definition cls_space (c : code_unit) : bool :=
  isWhiteSpace c || isLineTerminator c.

(** [\w], without the [u] and [i] flags: [[A-Za-z0-9_]]. *)
Definition cls_word (c : code_unit) : bool :=
  isUpperAZ c || isLowerAZ c || isDigit c || (c =? UNDERSCORE)%N.

(** [.] without the [s] flag: anything but a line terminator. *)
Definition cls_dot (c : code_unit) : bool := negb (isLineTerminator c).

(** [[^a-z0-9-]] *)
Definition cls_not_slug (c : code_unit) : bool :=
  negb (isLowerAZ c || isDigit c || (c =? DASH)%N).

(** [[^\w]] *)
Definition cls_not_word (c : code_unit) : bool := negb (cls_word c).

Definition cls_is (d c : code_unit) : bool := (c =? d)%N.

(** ** [String.prototype.toLowerCase]

    On a string of ASCII code units the Unicode default case conversion
    maps [A-Z] to [a-z] and leaves everything else alone. On any other
    string the conversion is the Unicode one (context-sensitive, and able
    to change the length); it is not written out here but taken as the
    parameter [unicodeLower]. *)
Definition asciiLower (c : code_unit) : code_unit :=
  if isUpperAZ c then (c + 32)%N else c.

Definition toLowerCase (unicodeLower : jsstring -> jsstring) (s : jsstring)
  : jsstring :=
  if forallb isAscii s then map asciiLower s else unicodeLower s.

(** ** [String.prototype.trim]: strips white space and line terminators
    from both ends. *)
Fixpoint trimStart (s : jsstring) : jsstring :=
  match s with
  | c :: t => if cls_space c then trimStart t else s
  | [] => []
  end.

Definition trimEnd (s : jsstring) : jsstring := rev (trimStart (rev s)).

Definition trim (s : jsstring) : jsstring := trimEnd (trimStart s).

(** [String.prototype.endsWith] *)
Definition endsWith (s suffix : jsstring) : bool :=
  (length suffix <=? length s)
  && jsstring_eqb (skipn (length s - length suffix) s) suffix.

(** [s.split(sep)] for a one-unit separator: the pieces between
    occurrences of [sep]; never empty. *)
Fixpoint split (sep : code_unit) (s : jsstring) : list jsstring :=
  match s with
  | [] => [[]]
  | c :: t =>
      if (c =? sep)%N then [] :: split sep t
      else match split sep t with
           | piece :: rest => (c :: piece) :: rest
           | [] => [[c]]
           end
  end.

(** Truthiness of a string: non-empty. *)
Definition truthy (s : jsstring) : bool :=
  match s with [] => false | _ => true end.

(** ** Array indexing [a[i]] with a JavaScript number index:
    [undefined] outside [0 .. length-1]. *)
Definition index {A} (a : list A) (i : Z) : option A :=
  if (i <? 0)%Z then None else nth_error a (Z.to_nat i).

(** [Array.prototype.findIndex]: the first position whose element passes
    [f], or [-1]. *)
Fixpoint findIndex_from {A} (f : A -> bool) (a : list A) (i : Z) : Z :=
  match a with
  | [] => (-1)%Z
  | x :: t => if f x then i else findIndex_from f t (i + 1)%Z
  end.

Definition findIndex {A} (f : A -> bool) (a : list A) : Z :=
  findIndex_from f a 0%Z.

End JS.
Import JS.

(* ================================================================== *)
(** * Regular expressions *)

Module RegExp.

(** The fragment of the pattern syntax used by the source. *)
Inductive regex : Type :=
| RChar (p : code_unit -> bool)          (* a character class *)
| RSeq (r1 r2 : regex)                   (* r1 r2 *)
| RAlt (r1 r2 : regex)                   (* r1 | r2 *)
| RRep (r : regex) (min : nat) (max : option nat)  (* r{min,max}, greedy *)
| RGroup (n : nat) (r : regex)           (* capturing group number n *)
| RBol                                   (* ^ *)
| REol.                                  (* $ *)

(** [r+] *)
Definition RPlus (r : regex) : regex := RRep r 1 None.

(** A matcher state: the input split at the current position, with the
    consumed part reversed, and the captures recorded so far. *)
Record mstate : Type := MState {
  m_prev : jsstring;
  m_rest : jsstring;
  m_caps : list (nat * jsstring)
}.

Definition cont := mstate -> option mstate.

Definition advance (c : code_unit) (t : jsstring) (x : mstate) : mstate :=
  MState (c :: m_prev x) t (m_caps x).

(** What was consumed between state [x] and a later state [y]. *)
Definition consumed (x y : mstate) : jsstring :=
  firstn (length (m_rest x) - length (m_rest y)) (m_rest x).

Definition set_cap (n : nat) (x y : mstate) : mstate :=
  MState (m_prev y) (m_rest y) ((n, consumed x y) :: m_caps y).

(** ECMAScript RepeatMatcher: [m] is the matcher of the quantified atom.
    Once [min] is down to zero an iteration that consumes nothing is
    rejected, so [min] plus the remaining input bounds the iterations;
    [fuel] is that bound. *)
Fixpoint repeatMatcher (fuel : nat) (m : cont -> mstate -> option mstate)
  (min : nat) (max : option nat) (k : cont) (x : mstate) : option mstate :=
  match fuel with
  | O => None
  | S fuel' =>
      match max with
      | Some O => k x
      | _ =>
          let d (y : mstate) :=
            if (min =? 0) && (length (m_rest y) =? length (m_rest x))
            then None
            else repeatMatcher fuel' m (pred min) (option_map pred max) k y in
          if min =? 0
          then match m d x with
               | Some z => Some z
               | None => k x
               end
          else m d x
      end
  end.

(** The backtracking matcher, in continuation-passing style: [rmatch ml r
    k x] matches [r] at [x] and hands the state reached to [k]; a failure
    of [k] makes the matcher try its next alternative. [ml] is the
    [multiline] flag. *)
Fixpoint rmatch (ml : bool) (r : regex) (k : cont) (x : mstate)
  : option mstate :=
  match r with
  | RChar p =>
      match m_rest x with
      | c :: t => if p c then k (advance c t x) else None
      | [] => None
      end
  | RSeq r1 r2 => rmatch ml r1 (rmatch ml r2 k) x
  | RAlt r1 r2 =>
      match rmatch ml r1 k x with
      | Some z => Some z
      | None => rmatch ml r2 k x
      end
  | RRep r min max =>
      repeatMatcher (S (min + length (m_rest x))) (rmatch ml r) min max k x
  | RGroup n r => rmatch ml r (fun y => k (set_cap n x y)) x
  | RBol =>
      match m_prev x with
      | [] => k x
      | c :: _ => if ml && isLineTerminator c then k x else None
      end
  | REol =>
      match m_rest x with
      | [] => k x
      | c :: _ => if ml && isLineTerminator c then k x else None
      end
  end.

(** One attempt at the position [prev | rest]: the end state of the
    match, if the pattern matches there. *)
Definition matchAt (ml : bool) (r : regex) (prev rest : jsstring)
  : option mstate :=
  rmatch ml r Some (MState prev rest []).

Definition matchLength (rest : jsstring) (y : mstate) : nat :=
  length rest - length (m_rest y).

(** Capture [n] of a match ([undefined] when the group took no part). *)
Fixpoint capture (n : nat) (caps : list (nat * jsstring)) : option jsstring :=
  match caps with
  | [] => None
  | (i, s) :: t => if i =? n then Some s else capture n t
  end.

(** ** [String.prototype.replace] with a global pattern and a replacement
    string without [$] references.

    The search walks the positions from left to right. [skip] counts the
    code units of the current position that the last match covers; at a
    position not covered the matcher is tried: a match emits the
    replacement and covers its length; an empty match emits the
    replacement and the search resumes one unit further, the unit itself
    being kept. Units outside every match are copied. *)
Fixpoint replaceFrom (ml : bool) (r : regex) (rep : jsstring)
  (prev rest : jsstring) (skip : nat) : jsstring :=
  match skip, rest with
  | S skip', c :: t => replaceFrom ml r rep (c :: prev) t skip'
  | S _, [] => []
  | O, _ =>
      match matchAt ml r prev rest with
      | Some y =>
          match matchLength rest y, rest with
          | S n, c :: t => rep ++ replaceFrom ml r rep (c :: prev) t n
          | _, c :: t => rep ++ c :: replaceFrom ml r rep (c :: prev) t 0
          | _, [] => rep
          end
      | None =>
          match rest with
          | c :: t => c :: replaceFrom ml r rep (c :: prev) t 0
          | [] => []
          end
      end
  end.

(** [s.replace(/r/g, rep)] *)
Definition replaceAll (r : regex) (rep : jsstring) (s : jsstring) : jsstring :=
  replaceFrom false r rep [] s 0.

(** ** A loop [while ((match = re.exec(s)) !== null) body] over a global
    pattern: the successive matches, each with the captures. [exec]
    resumes at the end of the last match ([lastIndex]), so an empty match
    would be found again for ever: [None] stands for that divergence. *)
Fixpoint execLoopFrom (ml : bool) (r : regex)
  (prev rest : jsstring) (skip : nat) : option (list mstate) :=
  match skip, rest with
  | S skip', c :: t => execLoopFrom ml r (c :: prev) t skip'
  | S _, [] => Some []
  | O, _ =>
      match matchAt ml r prev rest with
      | Some y =>
          match matchLength rest y, rest with
          | S n, c :: t =>
              option_map (cons y) (execLoopFrom ml r (c :: prev) t n)
          | _, _ => None
          end
      | None =>
          match rest with
          | c :: t => execLoopFrom ml r (c :: prev) t 0
          | [] => Some []
          end
      end
  end.

Definition execLoop (ml : bool) (r : regex) (s : jsstring)
  : option (list mstate) :=
  execLoopFrom ml r [] s 0.

End RegExp.
Import RegExp.

(* ================================================================== *)
(** * Results of fallible calls *)

(** A thrown value (an [Error] with its message). *)
Inductive js_error : Type := Error (message : jsstring).

(** The result of a call that may throw, or of an [async] function whose
    promise is fulfilled ([Ok]) or rejected ([Throw]). *)
Inductive result (A : Type) : Type :=
| Ok (a : A)
| Throw (e : js_error).

Arguments Ok {A} a.
Arguments Throw {A} e.

Definition bind {A B} (r : result A) (f : A -> result B) : result B :=
  match r with
  | Ok a => f a
  | Throw e => Throw e
  end.

Notation "x <- r ;; k" := (bind r (fun x => k))
  (at level 61, r at next level, right associativity).

Definition isOk {A} (r : result A) : bool :=
  match r with Ok _ => true | Throw _ => false end.

(** [Promise.all] over promises already settled: the array of the values
    when all are fulfilled, a rejection when one is rejected (which of
    several rejections wins depends on timing; here the first in array
    order, and nothing below depends on the choice). *)
Fixpoint promiseAll {A} (ps : list (result A)) : result (list A) :=
  match ps with
  | [] => Ok []
  | p :: t => a <- p ;; rest <- promiseAll t ;; Ok (a :: rest)
  end.

(* ================================================================== *)
(** * [src/lib/markdown.ts] *)

Module Markdown.

(** What [fs.stat] resolves to; the resolver only looks at whether the
    probe succeeded. *)
Record Stats : Type := { st_isDirectory : bool }.

(** The file system as the page-render path sees it: [fs.stat] and
    [fs.readFile(_, 'utf-8')]. *)
Record FileSystem : Type := {
  stat : jsstring -> result Stats;
  readFile : jsstring -> result jsstring
}.

Record TocEntry : Type := {
  level : nat;
  text : jsstring;
  href : jsstring
}.

(** [/^(#{2,4})\s(.+)$/gm] *)
Definition headingsRegex : regex :=
  RSeq RBol
    (RSeq (RGroup 1 (RRep (RChar (cls_is HASH)) 2 (Some 4)))
       (RSeq (RChar cls_space)
          (RSeq (RGroup 2 (RPlus (RChar cls_dot))) REol))).

(** [/\s+/g] *)
Definition spacesRegex : regex := RPlus (RChar cls_space).

(** [/[^a-z0-9-]/g] *)
Definition notSlugRegex : regex := RChar cls_not_slug.

Section Markdown.

(** The Unicode part of [toLowerCase], Node's [path.join] and
    [process.cwd()]. *)
Variable unicodeLower : jsstring -> jsstring.
Variable path_join : list jsstring -> jsstring.
Variable cwd : jsstring.

(** What is imported from [./routes-config]: the route type, its [href]
    field and the table [page_routes], taken as parameters. *)
Variable Route : Type.
Variable route_href : Route -> jsstring.
Variable page_routes : list Route.

(** [sluggify], lines 104-109. *)
Definition sluggify (text : jsstring) : jsstring :=
  replaceAll notSlugRegex []
    (replaceAll spacesRegex (lit "-")
       (toLowerCase unicodeLower text)).

(** [getDocsContentPath], lines 112-125. *)
Definition getDocsContentPath (fs : FileSystem) (slug : jsstring)
  : result jsstring :=
  if endsWith slug (lit ".mdx")
  then Ok (path_join [cwd; lit "/contents/docs/"; slug])
  else
    let mdxPath := path_join [cwd; lit "/contents/docs/"; slug ++ lit ".mdx"] in
    match stat fs mdxPath with
    | Ok _ => Ok mdxPath
    | Throw _ =>
        Ok (path_join [cwd; lit "/contents/docs/"; slug ++ lit "/index.mdx"])
    end.

(** The body of the [while] loop of [getDocsTocs], lines 83-90: one entry
    from one match. Reading [.length] of a capture that is [undefined]
    throws. *)
Definition tocEntry (m : mstate) : result TocEntry :=
  match capture 1 (m_caps m), capture 2 (m_caps m) with
  | Some g1, Some g2 =>
      let headingLevel := length g1 in
      let headingText := trim g2 in
      let slug := sluggify headingText in
      Ok {| level := headingLevel;
            text := headingText;
            href := lit "#" ++ slug |}
  | _, _ => Throw (Error (lit "TypeError"))
  end.

Fixpoint tocEntries (ms : list mstate) : result (list TocEntry) :=
  match ms with
  | [] => Ok []
  | m :: t => e <- tocEntry m ;; rest <- tocEntries t ;; Ok (e :: rest)
  end.

(** Lines 79-92 of [getDocsTocs]: the table of contents of a raw
    document text. [None]: the loop does not terminate. *)
Definition extractToc (rawMdx : jsstring) : option (result (list TocEntry)) :=
  option_map tocEntries (execLoop true headingsRegex rawMdx).

(** [getDocsTocs], lines 76-93. *)
Definition getDocsTocs (fs : FileSystem) (slug : jsstring)
  : option (result (list TocEntry)) :=
  match getDocsContentPath fs slug with
  | Throw e => Some (Throw e)
  | Ok contentPath =>
      match readFile fs contentPath with
      | Throw e => Some (Throw e)
      | Ok rawMdx => extractToc rawMdx
      end
  end.

(** [getPreviousNext], lines 95-101. *)
Record PreviousNext : Type := {
  prev : option Route;
  next : option Route
}.

Definition getPreviousNext (path : jsstring) : PreviousNext :=
  let index :=
    findIndex (fun r => jsstring_eqb (route_href r) (lit "/" ++ path))
      page_routes in
  {| prev := JS.index page_routes (index - 1)%Z;
     next := JS.index page_routes (index + 1)%Z |}.

End Markdown.

Section DocsForSlug.

(** [compileMDX] of next-mdx-remote, with the options and components
    [parseMdx] fixes (lines 35-61), and what it resolves to. *)
Variable Compiled : Type.
Variable compileMDX : jsstring -> result Compiled.
Variable path_join : list jsstring -> jsstring.
Variable cwd : jsstring.

(** [parseMdx], lines 35-61. *)
Definition parseMdx (rawMdx : jsstring) : result Compiled :=
  compileMDX rawMdx.

(** What [console.error(message, err)] prints. *)
Definition ErrorLog : Type := list (jsstring * js_error).

(** The message of line 70; 34 is the double quote. *)
Definition fetchErrorMessage (slug : jsstring) : jsstring :=
  lit "Error fetching docs for slug " ++ 34%N :: slug ++ 34%N :: lit ":".

(** [getDocsForSlug], lines 64-73: the [try] block, then the [catch]
    that logs and throws the error again. *)
Definition getDocsForSlug (fs : FileSystem) (slug : jsstring)
  (console : ErrorLog) : ErrorLog * result Compiled :=
  match (contentPath <- getDocsContentPath path_join cwd fs slug ;;
         rawMdx <- readFile fs contentPath ;;
         parseMdx rawMdx) with
  | Ok compiled => (console, Ok compiled)
  | Throw err =>
      (console ++ [(fetchErrorMessage slug, err)], Throw err)
  end.

End DocsForSlug.

End Markdown.

(* ================================================================== *)
(** * The search-index build script *)

Module SearchIndex.

(** A directory tree as [fs.readdirSync(dir, {withFileTypes: true})]
    reports it: each entry has a name and is a regular file, a directory
    with its own entries (in the order [readdirSync] lists them), or
    something else (a symbolic link, a socket, ...), for which both
    [isDirectory()] and [isFile()] are false. *)
Inductive fsnode : Type :=
| File
| Directory (entries : list (jsstring * fsnode))
| Special.

(** A node of the markdown syntax tree (mdast): its [type], its [value]
    (literals only) and its [children] (parents only). *)
Inductive mdast : Type :=
| MdNode (type : jsstring) (value : option jsstring) (children : list mdast).

Definition md_type (n : mdast) : jsstring :=
  match n with MdNode t _ _ => t end.
Definition md_value (n : mdast) : option jsstring :=
  match n with MdNode _ v _ => v end.
Definition md_children (n : mdast) : list mdast :=
  match n with MdNode _ _ c => c end.

Record Heading : Type := {
  h_text : jsstring;
  h_id : jsstring
}.

Record SearchDocument : Type := {
  id : jsstring;
  title : jsstring;
  folderName : jsstring;
  content : jsstring;
  url : jsstring;
  headings : list Heading
}.

(** The front matter [data] of gray-matter, as far as the script reads
    it: [data.title]. *)
Record FrontMatter : Type := { fm_title : option jsstring }.

(** [/[^\w]+/g] *)
Definition notWordRegex : regex := RPlus (RChar cls_not_word).

(** [/^-+|-+$/g] *)
Definition edgeDashesRegex : regex :=
  RAlt (RSeq RBol (RPlus (RChar (cls_is DASH))))
       (RSeq (RPlus (RChar (cls_is DASH))) REol).

(** [/\n+/g] *)
Definition newlinesRegex : regex := RPlus (RChar (cls_is LF)).

(** [visit(tree, test, visitor)] of unist-util-visit with a visitor that
    returns nothing: every node of the tree in preorder, the visitor
    called on those that pass the test. The visitor's effect is on the
    state [S] it closes over. *)
Fixpoint visit {S : Type} (test : mdast -> bool) (visitor : mdast -> S -> S)
  (node : mdast) (st : S) : S :=
  let st' := if test node then visitor node st else st in
  match node with
  | MdNode _ _ children =>
      fold_left (fun s child => visit test visitor child s) children st'
  end.

(** [Array.prototype.join('')] over values that may be [undefined]. *)
Definition joinValues (vs : list (option jsstring)) : jsstring :=
  concat (map (fun v => match v with Some s => s | None => [] end) vs).

(** The state of the process the script runs in: the output file (its
    content, when it exists) and what was printed. *)
Record Process : Type := {
  artifact : option jsstring;
  stdout : list jsstring;
  stderr : list js_error
}.

(** The process's surroundings: the content tree under [DOCS_ROOT],
    reading a file, and whether the output file can be written. *)
Record Environment : Type := {
  docsTree : list (jsstring * fsnode);
  readFileSync : jsstring -> result jsstring;
  outputWritable : bool
}.

Section SearchIndex.

(** Library functions the script calls: the Unicode part of
    [toLowerCase]; [path.join], [path.relative], [path.dirname] and
    [process.cwd()]; gray-matter's [matter]; remark's parser and its
    parse-and-stringify pipeline; [JSON.stringify(_, null, 2)]. *)
Variable unicodeLower : jsstring -> jsstring.
Variable path_join : list jsstring -> jsstring.
Variable path_relative : jsstring -> jsstring -> jsstring.
Variable path_dirname : jsstring -> jsstring.
Variable cwd : jsstring.
Variable matter : jsstring -> result (jsstring * FrontMatter).
Variable remarkParse : jsstring -> result mdast.
Variable remarkProcess : jsstring -> result jsstring.
Variable JSON_stringify : list SearchDocument -> jsstring.

Definition DOCS_ROOT : jsstring := path_join [cwd; lit "contents/docs"].
Definition OUTPUT_FILE : jsstring :=
  path_join [cwd; lit "public"; lit "search-index.json"].

(** [getAllIndexMDXFiles], lines 30-46, on the directory [dir] whose
    entries are [entries]. [files] is the array the [forEach] callback
    extends. *)
Fixpoint filesOfEntry (fullPath name : jsstring) (node : fsnode)
  (files : list jsstring) {struct node} : list jsstring :=
  match node with
  | Directory entries =>
      files ++
      fold_left
        (fun files' entry =>
           filesOfEntry (path_join [fullPath; fst entry]) (fst entry)
             (snd entry) files')
        entries []
  | File =>
      if jsstring_eqb name (lit "index.mdx")
      then files ++ [fullPath]
      else files
  | Special => files
  end.

Definition getAllIndexMDXFiles (dir : jsstring)
  (entries : list (jsstring * fsnode)) : list jsstring :=
  fold_left
    (fun files entry =>
       filesOfEntry (path_join [dir; fst entry]) (fst entry) (snd entry) files)
    entries [].

(** The id of a heading text, lines 63-66. *)
Definition headingId (text : jsstring) : jsstring :=
  replaceAll edgeDashesRegex []
    (replaceAll notWordRegex (lit "-")
       (toLowerCase unicodeLower text)).

(** The text of a heading node, lines 57-60. *)
Definition headingText (node : mdast) : jsstring :=
  joinValues
    (map md_value
       (filter (fun child => jsstring_eqb (md_type child) (lit "text"))
          (md_children node))).

(** The visitor of [extractHeadings], lines 56-71. *)
Definition headingVisitor (node : mdast) (headings : list Heading)
  : list Heading :=
  let text := headingText node in
  let id := headingId text in
  if truthy text && truthy id
  then headings ++ [{| h_text := text; h_id := id |}]
  else headings.

Definition isHeading (node : mdast) : bool :=
  jsstring_eqb (md_type node) (lit "heading").

(** The headings collected from a parsed tree. *)
Definition headingsOfTree (tree : mdast) : list Heading :=
  visit isHeading headingVisitor tree [].

(** [extractHeadings], lines 51-74. *)
Definition extractHeadings (content : jsstring) : result (list Heading) :=
  tree <- remarkParse content ;;
  Ok (headingsOfTree tree).

(** [relativePath.split('/').pop() || relativePath] *)
Definition lastSegmentOr (relativePath : jsstring) : jsstring :=
  let popped := last (split SLASH relativePath) [] in
  if truthy popped then popped else relativePath.

(** [extractTextFromMDX], lines 79-105. *)
Definition extractTextFromMDX (env : Environment) (filePath : jsstring)
  : result SearchDocument :=
  fileContent <- readFileSync env filePath ;;
  parsed <- matter fileContent ;;
  let content := fst parsed in
  let data := snd parsed in
  plainText <- remarkProcess content ;;
  headings <- extractHeadings content ;;
  let relativePath := path_relative DOCS_ROOT (path_dirname filePath) in
  let url := lit "/docs/" ++ relativePath in
  let folderName := lastSegmentOr relativePath in
  Ok {| id := relativePath;
        title := match fm_title data with
                 | Some t => if truthy t then t else relativePath
                 | None => relativePath
                 end;
        folderName := folderName;
        content := trim (replaceAll newlinesRegex (lit " ") plainText);
        url := url;
        headings := headings |}.

(** [fs.writeFileSync(OUTPUT_FILE, data)]; a write that fails is taken
    to leave the file as it was. *)
Definition writeOutput (env : Environment) (data : jsstring) (p : Process)
  : Process * result unit :=
  if outputWritable env
  then ({| artifact := Some data; stdout := stdout p; stderr := stderr p |},
        Ok tt)
  else (p, Throw (Error (lit "EACCES"))).

Definition console_log (line : jsstring) (p : Process) : Process :=
  {| artifact := artifact p;
     stdout := stdout p ++ [line];
     stderr := stderr p |}.

Definition console_error (e : js_error) (p : Process) : Process :=
  {| artifact := artifact p;
     stdout := stdout p;
     stderr := stderr p ++ [e] |}.

(** The line printed on success (it starts with U+2705). *)
Definition confirmation : jsstring :=
  (9989%N :: lit " Search index generated: ") ++ OUTPUT_FILE.

(** [generateSearchIndex], lines 110-118: the state the process is left
    in and how the returned promise settles. *)
Definition generateSearchIndex (env : Environment) (p : Process)
  : Process * result unit :=
  let files := getAllIndexMDXFiles DOCS_ROOT (docsTree env) in
  match promiseAll (map (extractTextFromMDX env) files) with
  | Throw e => (p, Throw e)
  | Ok index =>
      match writeOutput env (JSON_stringify index) p with
      | (p', Throw e) => (p', Throw e)
      | (p', Ok _) => (console_log confirmation p', Ok tt)
      end
  end.

(** [promise.catch(handler)]: a rejection runs the handler, and the
    promise returned is fulfilled either way (the handler, here
    [console.error], does not throw). *)
Definition promise_catch {A} (r : result A)
  (handler : js_error -> Process -> Process) (p : Process)
  : Process * result unit :=
  match r with
  | Ok _ => (p, Ok tt)
  | Throw e => (handler e p, Ok tt)
  end.

(** The status Node exits with when there is nothing left to run:
    [process.exitCode] (never set by the script, so 0), unless a rejected
    promise was left without a handler, which ends the process with
    status 1. *)
Definition exitStatus (pending : result unit) : Z :=
  match pending with
  | Ok _ => 0%Z
  | Throw _ => 1%Z
  end.

(** The script, line 121: [generateSearchIndex().catch(console.error)]. *)
Definition runScript (env : Environment) (p : Process) : Process * Z :=
  let (p1, r) := generateSearchIndex env p in
  let (p2, r') := promise_catch r console_error p1 in
  (p2, exitStatus r').

End SearchIndex.

End SearchIndex.

Unset Implicit Arguments.

(* ================================================================== *)
(** * Auxiliary definitions

    What the statements below are written with: runs of a character
    class, the closed forms the matcher is compared to, the readings of
    the specification, and small concrete instances of the library
    functions for the examples. *)

Module Aux.

(** ** Runs of a character class *)

(** Length of the longest prefix of [s] whose units all satisfy [p]. *)
Fixpoint runLength (p : code_unit -> bool) (s : jsstring) : nat :=
  match s with
  | c :: t => if p c then S (runLength p t) else 0
  | [] => 0
  end.

(** The longest prefix of [s] whose units satisfy [p]. *)
Fixpoint takeRun (p : code_unit -> bool) (s : jsstring) : jsstring :=
  match s with
  | c :: t => if p c then c :: takeRun p t else []
  | [] => []
  end.

(** What follows that prefix. *)
Fixpoint dropRun (p : code_unit -> bool) (s : jsstring) : jsstring :=
  match s with
  | c :: t => if p c then dropRun p t else s
  | [] => []
  end.

(** The matcher state [n] units after [prev | rest]. *)
Definition after (n : nat) (prev rest : jsstring)
  (caps : list (nat * jsstring)) : mstate :=
  MState (rev (firstn n rest) ++ prev) (skipn n rest) caps.

(** [j] respects the upper bound of a quantifier. *)
Definition withinMax (max : option nat) (j : nat) : Prop :=
  match max with
  | Some m => j <= m
  | None => True
  end.

(** A greedy quantifier over a character class, by recursion on the
    input: take a unit while the class and the upper bound allow, and
    fall back to the continuation, longest attempt first, once the lower
    bound is met. *)
Fixpoint greedy (p : code_unit -> bool) (min : nat) (max : option nat)
  (k : cont) (prev rest : jsstring) (caps : list (nat * jsstring))
  : option mstate :=
  match max with
  | Some O => k (MState prev rest caps)
  | _ =>
      let stop := if min =? 0 then k (MState prev rest caps) else None in
      match rest with
      | c :: t =>
          if p c
          then match greedy p (pred min) (option_map pred max) k
                       (c :: prev) t caps with
               | Some z => Some z
               | None => stop
               end
          else stop
      | [] => stop
      end
  end.

(** Every maximal run of units satisfying [p] replaced by [rep];
    [inRun] tells that the unit before belongs to a run already
    replaced. *)
Fixpoint collapseFrom (p : code_unit -> bool) (rep : jsstring)
  (inRun : bool) (s : jsstring) : jsstring :=
  match s with
  | [] => []
  | c :: t =>
      if p c
      then (if inRun then [] else rep) ++ collapseFrom p rep true t
      else c :: collapseFrom p rep false t
  end.

Definition collapseRuns (p : code_unit -> bool) (rep s : jsstring) : jsstring :=
  collapseFrom p rep false s.

Definition optionList {A} (o : option A) : list A :=
  match o with Some a => [a] | None => [] end.

(** ** Heading texts *)

Definition isAlnum (c : code_unit) : bool :=
  isUpperAZ c || isLowerAZ c || isDigit c.

(** TAB, LF, VT, FF, CR and the space. *)
Definition isAsciiSpace (c : code_unit) : bool := isAscii c && cls_space c.

(** Letters, digits and spaces only. *)
Definition lettersDigitsSpaces (s : jsstring) : bool :=
  forallb (fun c => isAlnum c || (c =? SPACE)%N) s.

(** The words of the specification for the slug of such a text: every
    run of spaces replaced by one dash (written where the run ends),
    everything else kept. *)
Fixpoint spaceRunsToDash (s : jsstring) : jsstring :=
  match s with
  | [] => []
  | c :: t =>
      if (c =? SPACE)%N
      then match t with
           | c' :: _ =>
               if (c' =? SPACE)%N then spaceRunsToDash t
               else DASH :: spaceRunsToDash t
           | [] => [DASH]
           end
      else c :: spaceRunsToDash t
  end.

(** A heading text of ASCII letters, digits and ASCII white space that
    neither begins nor ends with white space. *)
Definition plainHeading (t : jsstring) : bool :=
  forallb (fun c => isAlnum c || isAsciiSpace c) t
  && negb (cls_space (hd 0%N t))
  && negb (cls_space (last t 0%N)).

(** ** The table of contents read line by line *)

(** The lines of a text: the pieces between line terminators. *)
Fixpoint lines (s : jsstring) : list jsstring :=
  match s with
  | [] => [[]]
  | c :: t =>
      if isLineTerminator c then [] :: lines t
      else match lines t with
           | l :: ls => (c :: l) :: ls
           | [] => [[c]]
           end
  end.

(** The heading pattern read on one line, as the specification words it:
    two to four leading [#], one white-space unit, then the remaining
    line content (at least one unit); the level is the number of [#] and
    the text the remaining content, trimmed. *)
Definition lineHeading (line : jsstring) : option (nat * jsstring) :=
  let n := runLength (cls_is HASH) line in
  if (2 <=? n) && (n <=? 4)
  then match skipn n line with
       | c :: rest =>
           if cls_space c && truthy rest then Some (n, trim rest) else None
       | [] => None
       end
  else None.

Fixpoint headingsOfLines (ls : list jsstring) : list (nat * jsstring) :=
  match ls with
  | [] => []
  | l :: t =>
      match lineHeading l with
      | Some h => h :: headingsOfLines t
      | None => headingsOfLines t
      end
  end.

(** Level and text of the headings of a text, line by line. *)
Definition tocByLines (rawMdx : jsstring) : list (nat * jsstring) :=
  headingsOfLines (lines rawMdx).

Definition tocLevelsAndTexts (entries : list Markdown.TocEntry)
  : list (nat * jsstring) :=
  map (fun e => (Markdown.level e, Markdown.text e)) entries.

(** The [href] of an entry is [#] and the slug of its text. *)
Definition hrefOfText (unicodeLower : jsstring -> jsstring)
  (e : Markdown.TocEntry) : Prop :=
  Markdown.href e = lit "#" ++ Markdown.sluggify unicodeLower (Markdown.text e).

(** A line made of two to four [#] and nothing else. *)
Definition bareHashes (line : jsstring) : bool :=
  (2 <=? length line) && (length line <=? 4) && forallb (cls_is HASH) line.

(** No line of bare [#] is directly followed by a non-empty line. *)
Fixpoint noBrokenHeading (ls : list jsstring) : bool :=
  match ls with
  | l1 :: t =>
      match t with
      | l2 :: _ => negb (bareHashes l1 && truthy l2) && noBrokenHeading t
      | [] => true
      end
  | [] => true
  end.

(** The position [prev | _] is the start of a line. *)
Definition atLineStart (prev : jsstring) : bool :=
  match prev with
  | [] => true
  | c :: _ => isLineTerminator c
  end.

(** The match of [headingsRegex] at the start of [rest], when the
    position is the start of a line: two to four [#], a white-space unit
    [c], then the units up to the next line terminator, at least one. *)
Definition headingMatchState (prev rest : jsstring) : option mstate :=
  let n := runLength (cls_is HASH) rest in
  if (2 <=? n) && (n <=? 4)
  then match skipn n rest with
       | c :: r =>
           if cls_space c
           then match runLength cls_dot r with
                | O => None
                | S m =>
                    Some (MState
                            (rev (firstn (S m) r) ++
                             c :: rev (firstn n rest) ++ prev)
                            (skipn (S m) r)
                            [(2, firstn (S m) r); (1, firstn n rest)])
                end
           else None
       | [] => None
       end
  else None.

(** Level and text of a match, as [tocEntry] reads them. *)
Definition matchInfo (m : mstate) : option (nat * jsstring) :=
  match capture 1 (m_caps m), capture 2 (m_caps m) with
  | Some g1, Some g2 => Some (length g1, trim g2)
  | _, _ => None
  end.

(** A match whose first capture has two to four units. *)
Definition levelInRange (m : mstate) : Prop :=
  exists lvl txt, matchInfo m = Some (lvl, txt) /\ 2 <= lvl <= 4.

(** [##], a line feed, [foo]. *)
Definition hashesThenText : jsstring := lit "##" ++ LF :: lit "foo".

(** A document with headings of levels 1 to 5. *)
Definition demoMdx : jsstring :=
  lit "# Title" ++ LF :: LF ::
  lit "## Prerequisites" ++ LF ::
  lit "text # not a heading" ++ LF ::
  lit "### pnpm " ++ LF ::
  lit "##### too deep" ++ LF ::
  lit "#### Quick Overview".

(** ** Navigation and path resolution *)

(** The route's [href] is the one [getPreviousNext] looks for. *)
Definition matchesPath {Route : Type} (route_href : Route -> jsstring)
  (path : jsstring) (r : Route) : Prop :=
  route_href r = lit "/" ++ path.

(** [path.join(process.cwd(), '/contents/docs/', relative)] *)
Definition underRoot (path_join : list jsstring -> jsstring)
  (cwd relative : jsstring) : jsstring :=
  path_join [cwd; lit "/contents/docs/"; relative].

(** ** Discovery *)

(** Every regular file under a directory entry, with its full path and
    its name, in the order of the walk. *)
Fixpoint filesUnder (path_join : list jsstring -> jsstring)
  (fullPath name : jsstring) (node : SearchIndex.fsnode)
  : list (jsstring * jsstring) :=
  match node with
  | SearchIndex.File => [(fullPath, name)]
  | SearchIndex.Directory entries =>
      flat_map
        (fun entry =>
           filesUnder path_join (path_join [fullPath; fst entry]) (fst entry)
             (snd entry))
        entries
  | SearchIndex.Special => []
  end.

(** Every regular file of the tree whose root directory is [dir]. *)
Definition allFiles (path_join : list jsstring -> jsstring) (dir : jsstring)
  (entries : list (jsstring * SearchIndex.fsnode))
  : list (jsstring * jsstring) :=
  flat_map
    (fun entry =>
       filesUnder path_join (path_join [dir; fst entry]) (fst entry)
         (snd entry))
    entries.

(** The file's name is exactly [index.mdx]. *)
Definition isIndexFile (file : jsstring * jsstring) : bool :=
  jsstring_eqb (snd file) (lit "index.mdx").

Definition indexPaths (files : list (jsstring * jsstring)) : list jsstring :=
  map fst (filter isIndexFile files).

(** ** Headings of a syntax tree *)

(** The nodes of a tree in preorder. *)
Fixpoint preorder (node : SearchIndex.mdast) : list SearchIndex.mdast :=
  match node with
  | SearchIndex.MdNode _ _ children => node :: flat_map preorder children
  end.

(** What the visitor adds for one heading node: one entry or none. *)
Definition headingEntry (unicodeLower : jsstring -> jsstring)
  (node : SearchIndex.mdast) : list SearchIndex.Heading :=
  SearchIndex.headingVisitor unicodeLower node [].

Definition nonEmptyHeading (h : SearchIndex.Heading) : Prop :=
  SearchIndex.h_text h <> [] /\ SearchIndex.h_id h <> [].

(** ** Shapes of ids, texts and paths *)

(** [s] without its longest suffix of units satisfying [p]. *)
Fixpoint stripTrailing (p : code_unit -> bool) (s : jsstring) : jsstring :=
  match s with
  | [] => []
  | c :: t => if forallb p s then [] else c :: stripTrailing p t
  end.

(** No dash is followed by a dash. *)
Fixpoint noDoubleDash (s : jsstring) : bool :=
  match s with
  | c :: t =>
      negb ((c =? DASH)%N && (hd 0%N t =? DASH)%N) && noDoubleDash t
  | [] => true
  end.

(** Word characters and dashes only, no dash at either end, no two
    dashes in a row. *)
Definition wellFormedId (s : jsstring) : Prop :=
  forallb (fun c => cls_word c || (c =? DASH)%N) s = true
  /\ hd 0%N s <> DASH
  /\ last s 0%N <> DASH
  /\ noDoubleDash s = true.

(** A lowercase ASCII letter, a digit or a dash. *)
Definition isSlugUnit (c : code_unit) : bool :=
  isLowerAZ c || isDigit c || (c =? DASH)%N.

(** Neither the first nor the last unit is white space. *)
Definition trimmed (s : jsstring) : Prop :=
  cls_space (hd 0%N s) = false /\ cls_space (last s 0%N) = false.

(** The unit [c] does not occur in [s]. *)
Definition noUnit (c : code_unit) (s : jsstring) : bool :=
  forallb (fun x => negb (x =? c)%N) s.

(** The second capture of a match stays on one line. *)
Definition textOnOneLine (m : mstate) : Prop :=
  exists g2, capture 2 (m_caps m) = Some g2 /\ forallb cls_dot g2 = true.

End Aux.
Import Aux.

(* ================================================================== *)
(** * Concrete instances for the examples *)

Module Demo.

Import Markdown SearchIndex.

(** A plain stand-in for [path.join]: the parts separated by a slash. *)
Fixpoint demoJoin (parts : list jsstring) : jsstring :=
  match parts with
  | [] => []
  | [p] => p
  | p :: rest => p ++ SLASH :: demoJoin rest
  end.

(** A stand-in for [path.relative(from, to)] when [to] lies under
    [from]. *)
Definition demoRelative (from to : jsstring) : jsstring :=
  skipn (S (length from)) to.

Fixpoint demoDirnameRev (r : jsstring) : jsstring :=
  match r with
  | [] => []
  | c :: t => if (c =? SLASH)%N then t else demoDirnameRev t
  end.

(** A stand-in for [path.dirname]: the path up to its last slash. *)
Definition demoDirname (p : jsstring) : jsstring :=
  rev (demoDirnameRev (rev p)).

Definition demoMatter (s : jsstring) : result (jsstring * FrontMatter) :=
  Ok (s, {| fm_title := None |}).

Definition mdText (value : jsstring) : mdast :=
  MdNode (lit "text") (Some value) [].
Definition mdHeading (children : list mdast) : mdast :=
  MdNode (lit "heading") None children.
Definition mdParent (type : jsstring) (children : list mdast) : mdast :=
  MdNode type None children.

Definition demoParse (s : jsstring) : result mdast :=
  Ok (mdParent (lit "root") [mdParent (lit "paragraph") [mdText s]]).

Definition demoProcess (s : jsstring) : result jsstring := Ok s.

Definition demoStringify (docs : list SearchDocument) : jsstring :=
  lit "[" ++ concat (map (fun d => id d ++ lit ";") docs) ++ lit "]".

(** Three routes, each its own [href]. *)
Definition demoRoutes : list jsstring :=
  [lit "/docs/a"; lit "/docs/b"; lit "/docs/c"].

(** [a/index.mdx], [a/b/index.mdx] and [a/notes.mdx]. *)
Definition demoTree : list (jsstring * fsnode) :=
  [(lit "a", Directory [(lit "index.mdx", File);
                        (lit "b", Directory [(lit "index.mdx", File)]);
                        (lit "notes.mdx", File)])].

(** A document tree: [# Foo], [## *only emphasis*], [## !!!]. *)
Definition demoDocument : mdast :=
  mdParent (lit "root")
    [mdHeading [mdText (lit "Foo")];
     mdHeading [mdParent (lit "emphasis") [mdText (lit "only emphasis")]];
     mdHeading [mdText (lit "!!!")]].

(** A file system in which only [guide.mdx] exists under the content
    root of [/site] (the path is spelt as [demoJoin] builds it). *)
Definition demoFileSystem : FileSystem :=
  {| stat := fun p =>
       if jsstring_eqb p (lit "/site//contents/docs//guide.mdx")
       then Ok {| st_isDirectory := false |}
       else Throw (Error (lit "ENOENT"));
     readFile := fun _ => Throw (Error (lit "ENOENT")) |}.

(** A content tree whose one index file cannot be read. *)
Definition brokenEnvironment : Environment :=
  {| docsTree := [(lit "a", Directory [(lit "index.mdx", File)])];
     readFileSync := fun _ => Throw (Error (lit "EACCES"));
     outputWritable := true |}.

(** The same tree, readable. *)
Definition soundEnvironment : Environment :=
  {| docsTree := [(lit "a", Directory [(lit "index.mdx", File)])];
     readFileSync := fun _ => Ok (lit "hello");
     outputWritable := true |}.

(** The same tree, readable, with an output file that cannot be
    written. *)
Definition readOnlyEnvironment : Environment :=
  {| docsTree := [(lit "a", Directory [(lit "index.mdx", File)])];
     readFileSync := fun _ => Ok (lit "hello");
     outputWritable := false |}.

(** A process started with an index left by an earlier run. *)
Definition staleProcess : Process :=
  {| artifact := Some (lit "[]"); stdout := []; stderr := [] |}.

End Demo.
Import Demo.

(* ================================================================== *)
(** * Facts and theorems *)

Import Markdown SearchIndex.

(* ------------------------------------------------------------------ *)
(** ** Quantified character classes *)

(** RepeatMatcher over an atom that takes one unit of a class, with
    enough fuel, is [greedy]. *)
Lemma repeat_char_greedy (m : cont -> mstate -> option mstate)
  (p : code_unit -> bool) (k : cont) :
  (forall k' x, m k' x = match m_rest x with
                         | c :: t => if p c then k' (advance c t x) else None
                         | [] => None
                         end) ->
  forall fuel min max x,
    length (m_rest x) < fuel ->
    repeatMatcher fuel m min max k x
    = greedy p min max k (m_prev x) (m_rest x) (m_caps x).
Proof.
  intros Hm.
  induction fuel as [|fuel IH]; intros min max [pv rs cp] Hlt; [lia|].
  cbn [m_prev m_rest m_caps] in *.
  assert (Hstep : forall max',
    max' <> Some 0 ->
    (if min =? 0
     then match m (fun y =>
                     if (min =? 0) && (length (m_rest y) =? length rs)
                     then None
                     else repeatMatcher fuel m (pred min)
                            (option_map pred max') k y)
                  (MState pv rs cp) with
          | Some z => Some z
          | None => k (MState pv rs cp)
          end
     else m (fun y =>
               if (min =? 0) && (length (m_rest y) =? length rs)
               then None
               else repeatMatcher fuel m (pred min)
                      (option_map pred max') k y)
            (MState pv rs cp))
    = let stop := if min =? 0 then k (MState pv rs cp) else None in
      match rs with
      | c :: t =>
          if p c
          then match greedy p (pred min) (option_map pred max') k
                       (c :: pv) t cp with
               | Some z => Some z
               | None => stop
               end
          else stop
      | [] => stop
      end).
  { intros max' _. rewrite Hm. cbn [m_rest].
    destruct rs as [|c t].
    - destruct (min =? 0); reflexivity.
    - destruct (p c).
      + unfold advance; cbn [m_prev m_rest m_caps length].
        replace (length t =? S (length t)) with false
          by (symmetry; apply Nat.eqb_neq; lia).
        rewrite andb_false_r.
        rewrite IH by (cbn in *; lia). cbn [m_prev m_rest m_caps].
        destruct (min =? 0); [reflexivity|].
        destruct (greedy p (pred min) (option_map pred max') k (c :: pv) t cp);
          reflexivity.
      + destruct (min =? 0); reflexivity. }
  destruct max as [[|mx]|].
  - destruct rs; reflexivity.
  - cbn [repeatMatcher m_rest]. rewrite Hstep by discriminate.
    destruct rs; reflexivity.
  - cbn [repeatMatcher m_rest]. rewrite Hstep by discriminate.
    destruct rs; reflexivity.
Qed.

(** A quantified character class runs as [greedy]. *)
Lemma rmatch_rep_char (ml : bool) (p : code_unit -> bool) min max k x :
  rmatch ml (RRep (RChar p) min max) k x
  = greedy p min max k (m_prev x) (m_rest x) (m_caps x).
Proof.
  cbn [rmatch]. apply repeat_char_greedy; [reflexivity | lia].
Qed.

Lemma after_cons n c prev t caps :
  after (S n) prev (c :: t) caps = after n (c :: prev) t caps.
Proof.
  unfold after. cbn [firstn skipn rev]. rewrite <- app_assoc. reflexivity.
Qed.

Lemma greedy_accept (p : code_unit -> bool) :
  forall rest prev caps,
    greedy p 0 None Some prev rest caps
    = Some (after (runLength p rest) prev rest caps).
Proof.
  induction rest as [|c t IH]; intros prev caps; cbn [greedy runLength].
  - reflexivity.
  - destruct (p c).
    + cbn [Nat.eqb pred option_map]. rewrite IH, after_cons. reflexivity.
    + reflexivity.
Qed.

Lemma greedy_plus_accept (p : code_unit -> bool) rest prev caps :
  greedy p 1 None Some prev rest caps
  = match runLength p rest with
    | O => None
    | S _ => Some (after (runLength p rest) prev rest caps)
    end.
Proof.
  destruct rest as [|c t]; cbn [greedy runLength]; [reflexivity|].
  destruct (p c); [|reflexivity].
  cbn [pred option_map]. rewrite greedy_accept, after_cons. reflexivity.
Qed.

Lemma greedy_none (p : code_unit -> bool) (k : cont) :
  forall rest min prev caps,
    (forall j, min <= j <= runLength p rest ->
               k (after j prev rest caps) = None) ->
    greedy p min None k prev rest caps = None.
Proof.
  induction rest as [|c t IH]; intros min prev caps H; cbn [greedy].
  - destruct (min =? 0) eqn:E; [|reflexivity].
    apply Nat.eqb_eq in E. subst. apply (H 0). cbn. lia.
  - assert (Hstop : (if min =? 0 then k (MState prev (c :: t) caps) else None)
                    = None).
    { destruct (min =? 0) eqn:E; [|reflexivity].
      apply Nat.eqb_eq in E. subst. apply (H 0). lia. }
    rewrite Hstop.
    destruct (p c) eqn:Hp; [|reflexivity].
    cbn [option_map]. rewrite IH; [reflexivity|].
    intros j Hj. rewrite <- after_cons. apply H.
    cbn [runLength]. rewrite Hp. lia.
Qed.

Lemma runLength_le p s : runLength p s <= length s.
Proof.
  induction s as [|c t IH]; cbn; [lia|]. destruct (p c); cbn; lia.
Qed.

(** A run of a character class: the match at a position. *)
Lemma matchAt_plus ml (p : code_unit -> bool) prev rest :
  matchAt ml (RPlus (RChar p)) prev rest
  = match runLength p rest with
    | O => None
    | S _ => Some (after (runLength p rest) prev rest [])
    end.
Proof.
  unfold matchAt, RPlus. rewrite rmatch_rep_char. apply greedy_plus_accept.
Qed.

Lemma matchLength_after n prev rest caps :
  n <= length rest -> matchLength rest (after n prev rest caps) = n.
Proof.
  intros H. unfold matchLength, after. cbn [m_rest].
  rewrite length_skipn. lia.
Qed.

(** Replacing the runs of a class. *)
Lemma replaceFrom_plus ml p rep :
  forall rest prev skip (inRun : bool),
    skip = (if inRun then runLength p rest else 0) ->
    replaceFrom ml (RPlus (RChar p)) rep prev rest skip
    = collapseFrom p rep inRun rest.
Proof.
  induction rest as [|c t IH]; intros prev skip inRun Hinv.
  - assert (skip = 0) by (destruct inRun; cbn in Hinv; lia).
    clear Hinv. subst skip.
    cbn [replaceFrom collapseFrom]. rewrite matchAt_plus. reflexivity.
  - cbn [collapseFrom]. destruct (p c) eqn:Hp.
    + destruct inRun.
      * cbn [runLength] in Hinv. rewrite Hp in Hinv. rewrite Hinv.
        cbn [replaceFrom app]. apply IH. reflexivity.
      * rewrite Hinv. cbn [replaceFrom]. rewrite matchAt_plus.
        cbn [runLength]. rewrite Hp.
        rewrite matchLength_after
          by (cbn [length]; pose proof (runLength_le p t); lia).
        f_equal. apply IH. reflexivity.
    + assert (skip = 0).
      { destruct inRun; [|assumption]. cbn [runLength] in Hinv.
        rewrite Hp in Hinv. assumption. }
      clear Hinv. subst skip. cbn [replaceFrom]. rewrite matchAt_plus.
      cbn [runLength]. rewrite Hp. f_equal. apply IH.
      destruct inRun; reflexivity.
Qed.

Lemma replaceAll_plus p rep s :
  replaceAll (RPlus (RChar p)) rep s = collapseRuns p rep s.
Proof.
  unfold replaceAll, collapseRuns. apply replaceFrom_plus. reflexivity.
Qed.

(** Replacing the units of a class. *)
Lemma replaceFrom_char ml p rep :
  forall rest prev,
    replaceFrom ml (RChar p) rep prev rest 0
    = flat_map (fun c => if p c then rep else [c]) rest.
Proof.
  induction rest as [|c t IH]; intros prev; cbn [replaceFrom flat_map].
  - reflexivity.
  - unfold matchAt. cbn [rmatch m_rest]. destruct (p c).
    + unfold matchLength, advance. cbn [m_rest length].
      replace (S (length t) - length t) with 1 by lia.
      rewrite IH. reflexivity.
    + rewrite IH. reflexivity.
Qed.

Lemma replaceAll_char_delete p s :
  replaceAll (RChar p) [] s = filter (fun c => negb (p c)) s.
Proof.
  unfold replaceAll. rewrite replaceFrom_char.
  induction s as [|c t IH]; cbn; [reflexivity|].
  destruct (p c); cbn; rewrite IH; reflexivity.
Qed.

(** Where the pattern matches nowhere, nothing is replaced. *)
Lemma replaceFrom_no_match ml r rep :
  forall rest prev,
    (forall n, n <= length rest ->
       matchAt ml r (rev (firstn n rest) ++ prev) (skipn n rest) = None) ->
    replaceFrom ml r rep prev rest 0 = rest.
Proof.
  induction rest as [|c t IH]; intros prev H; cbn [replaceFrom].
  - pose proof (H 0 (Nat.le_refl _)) as H0. cbn in H0. rewrite H0.
    reflexivity.
  - pose proof (H 0 (Nat.le_0_l _)) as H0. cbn in H0. rewrite H0.
    f_equal. apply IH.
    intros n Hn. specialize (H (S n)). cbn [firstn skipn rev length] in H.
    rewrite <- app_assoc in H. apply H. lia.
Qed.

(* ------------------------------------------------------------------ *)
(** ** Character classes on ASCII *)

(** A boolean property of the ASCII units, checked on each of them. *)
Lemma ascii_check (P : code_unit -> bool) :
  forallb P (map N.of_nat (seq 0 128)) = true ->
  forall c, isAscii c = true -> P c = true.
Proof.
  intros H c Hc. rewrite forallb_forall in H. apply H.
  apply in_map_iff. exists (N.to_nat c). split.
  - apply N2Nat.id.
  - apply in_seq. unfold isAscii in Hc. apply N.ltb_lt in Hc. lia.
Qed.

Lemma alnum_ascii c : isAlnum c || isAsciiSpace c = true -> isAscii c = true.
Proof.
  unfold isAlnum, isAsciiSpace, isUpperAZ, isLowerAZ, isDigit, in_range,
    isAscii.
  intros H.
  repeat (apply orb_true_iff in H; destruct H as [H|H]);
    try (apply andb_true_iff in H; destruct H as [H1 H2]);
    try apply N.leb_le in H1; try apply N.leb_le in H2;
    try (apply N.ltb_lt; lia).
  assumption.
Qed.

(** What the classes say of a lowered unit of the domain. *)
Lemma lowered_classes c :
  isAscii c = true ->
  implb (isAlnum c || isAsciiSpace c)
    (let c' := asciiLower c in
     eqb (cls_not_word c') (cls_space c')
     && eqb (cls_space c') (cls_space c)
     && (cls_space c' || negb (cls_not_slug c'))
     && (cls_space c' || negb (c' =? DASH)%N)
     && eqb (cls_space c) (isAsciiSpace c)
     && eqb (c' =? SPACE)%N (c =? SPACE)%N) = true.
Proof.
  revert c. apply ascii_check. vm_compute. reflexivity.
Qed.

(* ------------------------------------------------------------------ *)
(** ** The slug of a plain heading text *)

Lemma collapseFrom_ext (p q : code_unit -> bool) rep :
  forall s b,
    Forall (fun c => p c = q c) s ->
    collapseFrom p rep b s = collapseFrom q rep b s.
Proof.
  induction s as [|c t IH]; intros b H; [reflexivity|].
  inversion H as [|? ? Hc Ht]; subst. cbn [collapseFrom].
  rewrite Hc. destruct (q c); rewrite IH by assumption; reflexivity.
Qed.

Lemma spaceRunsToDash_run c t :
  (c =? SPACE)%N = true ->
  spaceRunsToDash (c :: t) = DASH :: spaceRunsToDash (dropRun (cls_is SPACE) t).
Proof.
  intros Hc. revert c Hc.
  induction t as [|c' t' IH]; intros c Hc; cbn [spaceRunsToDash dropRun].
  - rewrite Hc. reflexivity.
  - rewrite Hc. change (cls_is SPACE c') with (c' =? SPACE)%N.
    destruct (c' =? SPACE)%N eqn:Hc'.
    + rewrite <- (IH c' Hc'). cbn [spaceRunsToDash]. rewrite Hc'. reflexivity.
    + cbn [spaceRunsToDash]. rewrite Hc'. reflexivity.
Qed.

Lemma collapse_spaces s :
  collapseFrom (cls_is SPACE) [DASH] false s = spaceRunsToDash s
  /\ collapseFrom (cls_is SPACE) [DASH] true s
     = spaceRunsToDash (dropRun (cls_is SPACE) s).
Proof.
  induction s as [|c t [IHf IHt]]; [split; reflexivity|].
  cbn [collapseFrom dropRun].
  change (cls_is SPACE c) with (c =? SPACE)%N.
  destruct (c =? SPACE)%N eqn:Hc.
  - rewrite IHt. split; [|reflexivity].
    cbn [app]. symmetry. apply spaceRunsToDash_run. assumption.
  - rewrite IHf. cbn [spaceRunsToDash]. rewrite Hc. split; reflexivity.
Qed.

Lemma filter_all {A} (f : A -> bool) (l : list A) :
  forallb f l = true -> filter f l = l.
Proof.
  induction l as [|a l IH]; cbn; [reflexivity|].
  intros H. apply andb_true_iff in H. destruct H as [Ha Hl].
  rewrite Ha, IH by assumption. reflexivity.
Qed.

(** Units of a collapsed string: those of the replacement, and the units
    of the input outside the class. *)
Lemma collapseFrom_forallb (p f : code_unit -> bool) rep :
  forallb f rep = true ->
  forall s b,
    forallb (fun c => p c || f c) s = true ->
    forallb f (collapseFrom p rep b s) = true.
Proof.
  intros Hrep. induction s as [|c t IH]; intros b H; [reflexivity|].
  cbn [forallb] in H. apply andb_true_iff in H. destruct H as [Hc Ht].
  cbn [collapseFrom]. destruct (p c) eqn:Hp.
  - rewrite forallb_app, IH by assumption.
    destruct b; cbn [forallb]; rewrite ?Hrep; reflexivity.
  - cbn [forallb]. cbn in Hc. rewrite Hc, IH by assumption. reflexivity.
Qed.

Lemma forallb_map {A B} (f : B -> bool) (g : A -> B) l :
  forallb f (map g l) = forallb (fun a => f (g a)) l.
Proof.
  induction l as [|a l IH]; cbn; [reflexivity|]. rewrite IH. reflexivity.
Qed.

Lemma forallb_impl {A} (f g : A -> bool) l :
  (forall a, f a = true -> g a = true) ->
  forallb f l = true -> forallb g l = true.
Proof.
  intros Hfg. induction l as [|a l IH]; cbn; [reflexivity|].
  intros H. apply andb_true_iff in H. destruct H as [Ha Hl].
  rewrite (Hfg a Ha), IH by assumption. reflexivity.
Qed.

(** The facts of [lowered_classes], one by one. *)
Lemma domain_facts c :
  isAlnum c || isAsciiSpace c = true ->
  let c' := asciiLower c in
  isAscii c = true
  /\ cls_not_word c' = cls_space c'
  /\ cls_space c' = cls_space c
  /\ cls_space c' || negb (cls_not_slug c') = true
  /\ cls_space c' || negb (c' =? DASH)%N = true
  /\ cls_space c = isAsciiSpace c
  /\ (c' =? SPACE)%N = (c =? SPACE)%N.
Proof.
  intros H c'. pose proof (alnum_ascii c H) as Ha.
  pose proof (lowered_classes c Ha) as L. rewrite H in L. cbn [implb] in L.
  fold c' in L.
  repeat (apply andb_true_iff in L; destruct L as [L ?]).
  repeat match goal with
         | E : eqb _ _ = true |- _ => apply eqb_prop in E
         end.
  repeat split; assumption.
Qed.

Section Slugs.
Variable unicodeLower : jsstring -> jsstring.

Lemma toLowerCase_ascii s :
  forallb isAscii s = true ->
  toLowerCase unicodeLower s = map asciiLower s.
Proof. intros H. unfold toLowerCase. rewrite H. reflexivity. Qed.

Lemma toLowerCase_domain t :
  forallb (fun c => isAlnum c || isAsciiSpace c) t = true ->
  toLowerCase unicodeLower t = map asciiLower t.
Proof.
  intros H. apply toLowerCase_ascii.
  revert H. apply forallb_impl. apply alnum_ascii.
Qed.

(** On letters, digits and ASCII white space [sluggify] only collapses
    the runs of white space of the lowered text. *)
Lemma sluggify_domain t :
  forallb (fun c => isAlnum c || isAsciiSpace c) t = true ->
  sluggify unicodeLower t
  = collapseRuns cls_space (lit "-") (map asciiLower t).
Proof.
  intros H. unfold sluggify, spacesRegex, notSlugRegex.
  rewrite toLowerCase_domain by assumption.
  rewrite replaceAll_plus, replaceAll_char_delete.
  apply filter_all. unfold collapseRuns.
  apply collapseFrom_forallb with (f := fun c => negb (cls_not_slug c)).
  - reflexivity.
  - rewrite forallb_map. revert H. apply forallb_impl.
    intros c Hc. apply (domain_facts c Hc).
Qed.

End Slugs.

(* ------------------------------------------------------------------ *)
(** ** Alternation, anchors, and the pattern that strips edge dashes *)

Lemma rmatch_seq ml r1 r2 k x :
  rmatch ml (RSeq r1 r2) k x = rmatch ml r1 (rmatch ml r2 k) x.
Proof. reflexivity. Qed.

Lemma rmatch_alt ml r1 r2 k x :
  rmatch ml (RAlt r1 r2) k x
  = match rmatch ml r1 k x with
    | Some z => Some z
    | None => rmatch ml r2 k x
    end.
Proof. reflexivity. Qed.

Lemma rmatch_bol_single k x :
  rmatch false RBol k x = match m_prev x with [] => k x | _ :: _ => None end.
Proof. cbn. destruct (m_prev x); reflexivity. Qed.

Lemma rmatch_eol_single k x :
  rmatch false REol k x = match m_rest x with [] => k x | _ :: _ => None end.
Proof. cbn. destruct (m_rest x); reflexivity. Qed.

Lemma runLength_full (p : code_unit -> bool) d :
  forall s, runLength p s = length s -> s <> [] -> p (last s d) = true.
Proof.
  induction s as [|c t IH]; intros H Hne; [contradiction|].
  cbn [runLength length] in H. destruct (p c) eqn:Hp; [|discriminate].
  injection H as H. destruct t as [|c2 t']; [assumption|].
  change (last (c :: c2 :: t') d) with (last (c2 :: t') d).
  apply IH; [assumption | discriminate].
Qed.

Lemma last_skipn {A} (d : A) :
  forall n v, skipn n v <> [] -> last (skipn n v) d = last v d.
Proof.
  induction n as [|n IH]; intros v H; [reflexivity|].
  destruct v as [|a v']; [contradiction H; reflexivity|].
  cbn [skipn] in *. rewrite IH by assumption.
  destruct v' as [|b v'']; [|reflexivity].
  destruct n; contradiction H; reflexivity.
Qed.

Lemma runLength_hd (p : code_unit -> bool) d s :
  p (hd d s) = false -> p d = false -> runLength p s = 0.
Proof.
  destruct s as [|c t]; cbn; [reflexivity|]. intros H _. rewrite H. reflexivity.
Qed.

(** A text that neither starts nor ends with a dash has no match of
    [/^-+|-+$/]. *)
Lemma matchAt_edge_none (v : jsstring) :
  hd 0%N v <> DASH -> last v 0%N <> DASH ->
  forall n, n <= length v ->
    matchAt false edgeDashesRegex (rev (firstn n v) ++ []) (skipn n v) = None.
Proof.
  intros Hhd Hlast n Hn.
  unfold matchAt, edgeDashesRegex, RPlus.
  rewrite rmatch_alt, !rmatch_seq, rmatch_bol_single.
  cbn [m_prev].
  match goal with
  | |- match ?X with Some _ => _ | None => _ end = None =>
      assert (H1 : X = None)
  end.
  { destruct (rev (firstn n v) ++ []) eqn:E; [|reflexivity].
    rewrite app_nil_r in E.
    assert (E' : firstn n v = []).
    { rewrite <- (rev_involutive (firstn n v)), E. reflexivity. }
    assert (Hv : skipn n v = v).
    { rewrite <- (firstn_skipn n v) at 2. rewrite E'. reflexivity. }
    rewrite rmatch_rep_char. cbn [m_prev m_rest m_caps].
    rewrite greedy_plus_accept, Hv.
    rewrite (runLength_hd (cls_is DASH) 0%N v); [reflexivity| |reflexivity].
    unfold cls_is. apply N.eqb_neq. assumption. }
  rewrite H1. rewrite rmatch_rep_char. cbn [m_prev m_rest m_caps].
  apply greedy_none. intros j [Hj1 Hj2].
  rewrite rmatch_eol_single. unfold after. cbn [m_rest].
  match goal with
  | |- match ?X with [] => _ | _ :: _ => _ end = None =>
      destruct X eqn:E; [|reflexivity]
  end.
  exfalso.
  pose proof (runLength_le (cls_is DASH) (skipn n v)) as Hle.
  assert (Hlen : length (skipn j (skipn n v)) = 0) by (rewrite E; reflexivity).
  rewrite length_skipn in Hlen.
  assert (Hne : skipn n v <> []).
  { intros Hnil. rewrite Hnil in Hj2. cbn in Hj2. lia. }
  assert (Hfull : runLength (cls_is DASH) (skipn n v) = length (skipn n v))
    by lia.
  pose proof (runLength_full (cls_is DASH) 0%N _ Hfull Hne) as Hd.
  rewrite last_skipn in Hd by assumption.
  unfold cls_is in Hd. apply N.eqb_eq in Hd. contradiction.
Qed.

Lemma replaceAll_edge_none (v : jsstring) :
  hd 0%N v <> DASH -> last v 0%N <> DASH ->
  replaceAll edgeDashesRegex [] v = v.
Proof.
  intros Hhd Hlast. unfold replaceAll. apply replaceFrom_no_match.
  apply matchAt_edge_none; assumption.
Qed.

(** A collapsed text ends as the text does, when that is outside the
    class. *)
Lemma collapseFrom_last (p : code_unit -> bool) rep d :
  forall u b,
    u <> [] -> p (last u d) = false ->
    exists w, collapseFrom p rep b u = w ++ [last u d].
Proof.
  induction u as [|c t IH]; intros b Hne Hp; [contradiction|].
  destruct t as [|c2 t'].
  - cbn in Hp. cbn [collapseFrom last]. rewrite Hp. exists []. reflexivity.
  - change (last (c :: c2 :: t') d) with (last (c2 :: t') d) in *.
    cbn [collapseFrom]. destruct (p c).
    + destruct (IH true ltac:(discriminate) Hp) as [w Hw].
      cbn [collapseFrom] in Hw. rewrite Hw.
      exists ((if b then [] else rep) ++ w). rewrite app_assoc. reflexivity.
    + destruct (IH false ltac:(discriminate) Hp) as [w Hw].
      cbn [collapseFrom] in Hw. rewrite Hw.
      exists (c :: w). reflexivity.
Qed.

Lemma last_map_default {A B} (f : A -> B) d :
  forall l, last (map f l) (f d) = f (last l d).
Proof.
  induction l as [|a l IH]; [reflexivity|].
  destruct l as [|b l']; [reflexivity|].
  change (last (map f (a :: b :: l')) (f d))
    with (last (map f (b :: l')) (f d)).
  rewrite IH. reflexivity.
Qed.

Lemma forallb_last {A} (f : A -> bool) d l :
  forallb f l = true -> l <> [] -> f (last l d) = true.
Proof.
  induction l as [|a l IH]; intros H Hne; [contradiction|].
  cbn [forallb] in H. apply andb_true_iff in H. destruct H as [Ha Hl].
  destruct l as [|b l']; [assumption|].
  change (last (a :: b :: l') d) with (last (b :: l') d).
  apply IH; [assumption | discriminate].
Qed.

Section Ids.
Variable unicodeLower : jsstring -> jsstring.

(** On a plain heading the id is the lowered text with its runs of white
    space collapsed. *)
Lemma headingId_domain t :
  plainHeading t = true ->
  headingId unicodeLower t
  = collapseRuns cls_space (lit "-") (map asciiLower t).
Proof.
  unfold plainHeading. intros H.
  apply andb_true_iff in H. destruct H as [H Hlast].
  apply andb_true_iff in H. destruct H as [Hdom Hhd].
  apply negb_true_iff in Hhd, Hlast.
  unfold headingId, notWordRegex.
  rewrite toLowerCase_domain by assumption.
  rewrite replaceAll_plus. unfold collapseRuns.
  rewrite (collapseFrom_ext cls_not_word cls_space).
  2:{ apply Forall_forall. intros c' Hin. apply in_map_iff in Hin.
      destruct Hin as [c [<- Hin]].
      rewrite forallb_forall in Hdom.
      apply (domain_facts c (Hdom c Hin)). }
  apply replaceAll_edge_none.
  - destruct t as [|c t']; [cbn; discriminate|].
    cbn [forallb] in Hdom. apply andb_true_iff in Hdom.
    destruct Hdom as [Hc _]. cbn [hd] in Hhd.
    destruct (domain_facts c Hc) as (_ & _ & Hsp & _ & Hd & _).
    cbn [map collapseFrom]. rewrite Hsp, Hhd. cbn [hd].
    rewrite Hsp, Hhd in Hd. cbn [orb] in Hd.
    apply negb_true_iff, N.eqb_neq in Hd. assumption.
  - destruct t as [|c0 t0] eqn:Et; [cbn; discriminate|]. rewrite <- Et in *.
    assert (Hne : t <> []) by (rewrite Et; discriminate).
    pose proof (forallb_last _ 0%N t Hdom Hne) as Hc.
    destruct (domain_facts _ Hc) as (_ & _ & Hsp & _ & Hd & _).
    assert (Hl : last (map asciiLower t) 0%N = asciiLower (last t 0%N)).
    { change 0%N with (asciiLower 0%N) at 1. apply last_map_default. }
    destruct (collapseFrom_last cls_space (lit "-") 0%N
                (map asciiLower t) false) as [w Hw].
    + rewrite Et. discriminate.
    + rewrite Hl, Hsp. assumption.
    + rewrite Hw, last_last, Hl.
      rewrite Hsp, Hlast in Hd. cbn [orb] in Hd.
      apply negb_true_iff, N.eqb_neq in Hd. assumption.
Qed.

End Ids.

(* ------------------------------------------------------------------ *)
(** ** The two slug functions *)

Lemma collapseFrom_filter (p : code_unit -> bool) :
  forall u b,
    forallb (fun c => p c || negb (c =? DASH)%N) u = true ->
    filter (fun c => negb (c =? DASH)%N) (collapseFrom p [DASH] b u)
    = filter (fun c => negb (p c)) u.
Proof.
  induction u as [|c t IH]; intros b H; [reflexivity|].
  cbn [forallb] in H. apply andb_true_iff in H. destruct H as [Hc Ht].
  cbn [collapseFrom filter]. destruct (p c) eqn:Hp; cbn [negb].
  - rewrite filter_app, IH by assumption. destruct b; reflexivity.
  - cbn [orb] in Hc. cbn [filter]. rewrite Hc, IH by assumption. reflexivity.
Qed.

Lemma letters_digits_spaces_domain c :
  isAlnum c || (c =? SPACE)%N = true -> isAlnum c || isAsciiSpace c = true.
Proof.
  intros H. apply orb_true_iff in H. destruct H as [H|H].
  - rewrite H. reflexivity.
  - apply N.eqb_eq in H. subst. reflexivity.
Qed.

Lemma space_class_lowered c :
  isAscii c = true ->
  implb (isAlnum c || (c =? SPACE)%N)
        (eqb (cls_space (asciiLower c)) (asciiLower c =? SPACE)%N) = true.
Proof. revert c. apply ascii_check. vm_compute. reflexivity. Qed.

(** C7. For every heading text [H] made only of ASCII letters, digits
    and spaces, [sluggify H] is the lowercased [H] with each maximal run
    of spaces replaced by one dash, and no character is removed: the
    units of the slug other than the dashes are the units of the
    lowercased text other than the spaces, in order. *)
Theorem sluggify_letters_digits_spaces
  (unicodeLower : jsstring -> jsstring) (H : jsstring) :
  lettersDigitsSpaces H = true ->
  sluggify unicodeLower H = spaceRunsToDash (toLowerCase unicodeLower H)
  /\ filter (fun c => negb (c =? DASH)%N) (sluggify unicodeLower H)
     = filter (fun c => negb (c =? SPACE)%N) (toLowerCase unicodeLower H).
Proof.
  unfold lettersDigitsSpaces. intros Hdom.
  assert (Hdom' : forallb (fun c => isAlnum c || isAsciiSpace c) H = true).
  { revert Hdom. apply forallb_impl. apply letters_digits_spaces_domain. }
  assert (Hcls : Forall (fun c => cls_space c = cls_is SPACE c)
                        (map asciiLower H)).
  { apply Forall_forall. intros c' Hin. apply in_map_iff in Hin.
    destruct Hin as [c [<- Hin]]. rewrite forallb_forall in Hdom.
    pose proof (Hdom c Hin) as Hc.
    pose proof (space_class_lowered c
                  (alnum_ascii c (letters_digits_spaces_domain c Hc))) as E.
    rewrite Hc in E. apply eqb_prop in E. exact E. }
  rewrite sluggify_domain, toLowerCase_domain by assumption.
  unfold collapseRuns.
  rewrite (collapseFrom_ext cls_space (cls_is SPACE) (lit "-") _ false Hcls).
  change (lit "-") with [DASH]. split.
  - apply collapse_spaces.
  - rewrite collapseFrom_filter; [reflexivity|].
    rewrite forallb_map. revert Hdom'. apply forallb_impl.
    intros c Hc. destruct (domain_facts c Hc) as (Ha & _ & _ & _ & Hd & _).
    pose proof (space_class_lowered c Ha) as E.
    unfold cls_is. destruct (asciiLower c =? SPACE)%N eqn:Es; [reflexivity|].
    destruct (asciiLower c =? DASH)%N eqn:Ed; [|reflexivity].
    apply N.eqb_eq in Ed. rewrite Ed in Hd. discriminate Hd.
Qed.

Lemma sluggify_letters_digits_spaces_witness :
  lettersDigitsSpaces (lit "Quick  Overview 2") = true
  /\ sluggify (fun s => s) (lit "Quick  Overview 2") = lit "quick-overview-2".
Proof.
  split; [reflexivity|].
  destruct (sluggify_letters_digits_spaces (fun s => s)
              (lit "Quick  Overview 2") eq_refl) as [E _].
  rewrite E. reflexivity.
Defined.

(** C1, amended. For every heading text made only of ASCII letters,
    digits and ASCII white space that neither begins nor ends with white
    space, the slug of the table of contents ([sluggify]) and the id of
    the search index ([headingId], the id computed in [extractHeadings])
    are the same string. *)
Theorem slug_and_heading_id_agree_on_plain_headings
  (unicodeLower : jsstring -> jsstring) (t : jsstring) :
  plainHeading t = true ->
  sluggify unicodeLower t = headingId unicodeLower t.
Proof.
  intros H. rewrite headingId_domain by assumption.
  apply sluggify_domain. unfold plainHeading in H.
  apply andb_true_iff in H. destruct H as [H _].
  apply andb_true_iff in H. destruct H as [H _]. exact H.
Qed.

Lemma slug_and_heading_id_agree_witness :
  plainHeading (lit "Quick  Overview 2") = true
  /\ sluggify (fun s => s) (lit "Quick  Overview 2")
     = headingId (fun s => s) (lit "Quick  Overview 2").
Proof.
  split; [reflexivity|].
  apply (slug_and_heading_id_agree_on_plain_headings (fun s => s)
           (lit "Quick  Overview 2")).
  reflexivity.
Defined.

(** C1 as stated fails: for the heading text [What's new] the table of
    contents links to [whats-new] (the apostrophe is dropped) while the
    search index records [what-s-new] (the apostrophe becomes a dash). *)
Lemma slug_and_heading_id_differ :
  ~ (forall (unicodeLower : jsstring -> jsstring) (t : jsstring),
       sluggify unicodeLower t = headingId unicodeLower t).
Proof.
  intros H. specialize (H (fun s => s) (lit "What's new")).
  vm_compute in H. discriminate H.
Qed.

(* ------------------------------------------------------------------ *)
(** ** Previous/next navigation and path resolution *)

Lemma jsstring_eqb_eq a b : jsstring_eqb a b = true <-> a = b.
Proof.
  unfold jsstring_eqb. destruct (list_eq_dec N.eq_dec a b); split;
    intros; try assumption; try reflexivity; try discriminate; contradiction.
Qed.

Lemma jsstring_eqb_neq a b : jsstring_eqb a b = false <-> a <> b.
Proof.
  unfold jsstring_eqb. destruct (list_eq_dec N.eq_dec a b); split;
    intros; try assumption; try reflexivity; try discriminate; contradiction.
Qed.

Lemma findIndex_from_first {A} (f : A -> bool) :
  forall l k i x,
    nth_error l i = Some x -> f x = true ->
    (forall j y, j < i -> nth_error l j = Some y -> f y = false) ->
    findIndex_from f l k = (k + Z.of_nat i)%Z.
Proof.
  induction l as [|a l IH]; intros k i x Hi Hx Hfirst.
  - destruct i; discriminate.
  - destruct i as [|i].
    + injection Hi as ->. cbn [findIndex_from]. rewrite Hx. lia.
    + cbn [findIndex_from]. rewrite (Hfirst 0 a); [|lia|reflexivity].
      rewrite (IH (k + 1)%Z i x); [lia|assumption|assumption|].
      intros j y Hj Hy. apply (Hfirst (S j) y); [lia|assumption].
Qed.

Lemma findIndex_from_none {A} (f : A -> bool) :
  forall l k, (forall x, In x l -> f x = false) ->
              findIndex_from f l k = (-1)%Z.
Proof.
  induction l as [|a l IH]; intros k H; [reflexivity|].
  cbn [findIndex_from]. rewrite (H a) by (left; reflexivity).
  apply IH. intros x Hx. apply H. right. assumption.
Qed.

Lemma index_of_nat {A} (a : list A) i :
  JS.index a (Z.of_nat i) = nth_error a i.
Proof.
  unfold JS.index. destruct (Z.of_nat i <? 0)%Z eqn:E.
  - apply Z.ltb_lt in E. lia.
  - rewrite Nat2Z.id. reflexivity.
Qed.

Lemma index_negative {A} (a : list A) i : (i < 0)%Z -> JS.index a i = None.
Proof.
  intros H. unfold JS.index. apply Z.ltb_lt in H. rewrite H. reflexivity.
Qed.

Section Navigation.
Variable Route : Type.
Variable route_href : Route -> jsstring.

(** The lookup finds the first route whose href is the path's. *)
Lemma getPreviousNext_at (page_routes : list Route) (path : jsstring)
  (i : nat) (r : Route) :
  nth_error page_routes i = Some r ->
  matchesPath route_href path r ->
  (forall j r', j < i -> nth_error page_routes j = Some r' ->
                ~ matchesPath route_href path r') ->
  getPreviousNext route_href page_routes path
  = {| prev := match i with O => None | S i' => nth_error page_routes i' end;
       next := nth_error page_routes (S i) |}.
Proof.
  intros Hi Hr Hfirst. unfold getPreviousNext, findIndex.
  rewrite (findIndex_from_first _ page_routes 0%Z i r Hi).
  - f_equal.
    + destruct i as [|i'].
      * apply index_negative. lia.
      * replace (0 + Z.of_nat (S i') - 1)%Z with (Z.of_nat i') by lia.
        apply index_of_nat.
    + replace (0 + Z.of_nat i + 1)%Z with (Z.of_nat (S i)) by lia.
      apply index_of_nat.
  - apply jsstring_eqb_eq. exact Hr.
  - intros j y Hj Hy. apply jsstring_eqb_neq. exact (Hfirst j y Hj Hy).
Qed.

(** C8. When the first route whose [href] is the path's stands at index
    [i], [getPreviousNext] returns the routes at [i-1] and [i+1],
    [undefined] where there is none. In a list [[p0; p1; p2]]: for the
    path of [p0] it returns no [prev] and [p1] as [next]; for the path of
    [p2] (and of neither [p0] nor [p1]) it returns [p1] as [prev] and no
    [next]. *)
Theorem getPreviousNext_neighbours :
  (forall page_routes path i r,
     nth_error page_routes i = Some r ->
     matchesPath route_href path r ->
     (forall j r', j < i -> nth_error page_routes j = Some r' ->
                   ~ matchesPath route_href path r') ->
     getPreviousNext route_href page_routes path
     = {| prev := match i with O => None | S i' => nth_error page_routes i' end;
          next := nth_error page_routes (S i) |})
  /\ (forall p0 p1 p2 path,
        matchesPath route_href path p0 ->
        getPreviousNext route_href [p0; p1; p2] path
        = {| prev := None; next := Some p1 |})
  /\ (forall p0 p1 p2 path,
        matchesPath route_href path p2 ->
        ~ matchesPath route_href path p0 -> ~ matchesPath route_href path p1 ->
        getPreviousNext route_href [p0; p1; p2] path
        = {| prev := Some p1; next := None |}).
Proof.
  split; [|split].
  - apply getPreviousNext_at.
  - intros p0 p1 p2 path H0.
    apply (getPreviousNext_at [p0; p1; p2] path 0 p0);
      [reflexivity|assumption|].
    intros j r' Hj. lia.
  - intros p0 p1 p2 path H2 H0 H1.
    apply (getPreviousNext_at [p0; p1; p2] path 2 p2);
      [reflexivity|assumption|].
    intros [|[|j]] r' Hj Hr'; [| |lia]; injection Hr' as <-; assumption.
Qed.

(** C9. For a path whose [href] is that of no route, [getPreviousNext]
    returns no [prev], and as [next] the first route of the list (the
    failed lookup gives index -1, and [next] is the element at index 0);
    [next] is [undefined] only when the list is empty. *)
Theorem getPreviousNext_unknown_path (page_routes : list Route)
  (path : jsstring) :
  (forall r, In r page_routes -> ~ matchesPath route_href path r) ->
  prev (getPreviousNext route_href page_routes path) = None
  /\ next (getPreviousNext route_href page_routes path) = hd_error page_routes
  /\ (page_routes <> [] ->
      next (getPreviousNext route_href page_routes path) <> None).
Proof.
  intros H. unfold getPreviousNext, findIndex.
  rewrite findIndex_from_none.
  2:{ intros r Hr. apply jsstring_eqb_neq. exact (H r Hr). }
  cbn [prev next]. change (-1 + 1)%Z with 0%Z. change (-1 - 1)%Z with (-2)%Z.
  split; [reflexivity|]. split.
  - destruct page_routes; reflexivity.
  - intros Hne. destruct page_routes; [contradiction|discriminate].
Qed.

End Navigation.

Lemma getPreviousNext_neighbours_witness :
  getPreviousNext (fun r : jsstring => r) demoRoutes (lit "docs/a")
  = {| prev := None; next := Some (lit "/docs/b") |}
  /\ getPreviousNext (fun r : jsstring => r) demoRoutes (lit "docs/b")
     = {| prev := Some (lit "/docs/a"); next := Some (lit "/docs/c") |}
  /\ getPreviousNext (fun r : jsstring => r) demoRoutes (lit "docs/c")
     = {| prev := Some (lit "/docs/b"); next := None |}.
Proof.
  destruct (getPreviousNext_neighbours jsstring (fun r => r))
    as (Hat & Hfirst & Hlast).
  split; [|split].
  - apply (Hfirst (lit "/docs/a") (lit "/docs/b") (lit "/docs/c")).
    reflexivity.
  - apply (Hat demoRoutes (lit "docs/b") 1 (lit "/docs/b"));
      [reflexivity|reflexivity|].
    intros [|j] r' Hj Hr'; [|lia]. injection Hr' as <-.
    unfold matchesPath. vm_compute. discriminate.
  - apply (Hlast (lit "/docs/a") (lit "/docs/b") (lit "/docs/c"));
      [reflexivity| |]; unfold matchesPath; vm_compute; discriminate.
Defined.

Lemma getPreviousNext_unknown_path_witness :
  prev (getPreviousNext (fun r : jsstring => r) demoRoutes (lit "docs/zzz"))
  = None
  /\ next (getPreviousNext (fun r : jsstring => r) demoRoutes (lit "docs/zzz"))
     = Some (lit "/docs/a").
Proof.
  destruct (getPreviousNext_unknown_path jsstring (fun r => r) demoRoutes
              (lit "docs/zzz")) as (Hp & Hn & _).
  - intros r [<-|[<-|[<-|[]]]]; unfold matchesPath; vm_compute; discriminate.
  - split; [exact Hp | exact Hn].
Defined.

Section Resolver.
Variable path_join : list jsstring -> jsstring.
Variable cwd : jsstring.

(** C4. [getDocsContentPath slug]: when [slug] ends with [.mdx] the
    result is the joined path under the content root, whatever the file
    system holds; otherwise, when the probe of [slug.mdx] succeeds, that
    path; otherwise the path of [slug/index.mdx], which is not probed.
    The call never throws: a failed probe selects the fallback. *)
Theorem getDocsContentPath_fallbacks (fs : FileSystem) (slug : jsstring) :
  (endsWith slug (lit ".mdx") = true ->
   forall fs',
     getDocsContentPath path_join cwd fs' slug
     = Ok (underRoot path_join cwd slug))
  /\ (endsWith slug (lit ".mdx") = false ->
      isOk (stat fs (underRoot path_join cwd (slug ++ lit ".mdx"))) = true ->
      getDocsContentPath path_join cwd fs slug
      = Ok (underRoot path_join cwd (slug ++ lit ".mdx")))
  /\ (endsWith slug (lit ".mdx") = false ->
      isOk (stat fs (underRoot path_join cwd (slug ++ lit ".mdx"))) = false ->
      getDocsContentPath path_join cwd fs slug
      = Ok (underRoot path_join cwd (slug ++ lit "/index.mdx")))
  /\ (exists p, getDocsContentPath path_join cwd fs slug = Ok p).
Proof.
  unfold getDocsContentPath, underRoot. repeat split.
  - intros H fs'. rewrite H. reflexivity.
  - intros H Hs. rewrite H.
    destruct (stat fs _); [reflexivity|discriminate].
  - intros H Hs. rewrite H.
    destruct (stat fs _); [discriminate|reflexivity].
  - destruct (endsWith slug (lit ".mdx")); [eexists; reflexivity|].
    destruct (stat fs _); eexists; reflexivity.
Qed.

End Resolver.

Lemma getDocsContentPath_fallbacks_witness :
  getDocsContentPath demoJoin (lit "/site") demoFileSystem (lit "x.mdx")
  = Ok (lit "/site//contents/docs//x.mdx")
  /\ getDocsContentPath demoJoin (lit "/site") demoFileSystem (lit "guide")
     = Ok (lit "/site//contents/docs//guide.mdx")
  /\ getDocsContentPath demoJoin (lit "/site") demoFileSystem (lit "missing")
     = Ok (lit "/site//contents/docs//missing/index.mdx").
Proof.
  split; [|split].
  - destruct (getDocsContentPath_fallbacks demoJoin (lit "/site")
                demoFileSystem (lit "x.mdx")) as (H & _).
    apply (H eq_refl).
  - destruct (getDocsContentPath_fallbacks demoJoin (lit "/site")
                demoFileSystem (lit "guide")) as (_ & H & _).
    apply (H eq_refl eq_refl).
  - destruct (getDocsContentPath_fallbacks demoJoin (lit "/site")
                demoFileSystem (lit "missing")) as (_ & _ & H & _).
    apply (H eq_refl eq_refl).
Defined.

(* ------------------------------------------------------------------ *)
(** ** Discovery of the index files *)

Lemma fsnode_nested_ind (P : fsnode -> Prop) :
  P File -> P Special ->
  (forall entries,
     Forall (fun e => P (snd e)) entries -> P (Directory entries)) ->
  forall node, P node.
Proof.
  intros HF HS HD. fix IH 1. intros [|entries|]; [exact HF| |exact HS].
  apply HD. induction entries as [|e t IHt]; constructor.
  - apply IH.
  - exact IHt.
Qed.

Lemma mdast_nested_ind (P : mdast -> Prop) :
  (forall t v children, Forall P children -> P (MdNode t v children)) ->
  forall node, P node.
Proof.
  intros H. fix IH 1. intros [t v children]. apply H.
  induction children as [|c l IHl]; constructor.
  - apply IH.
  - exact IHl.
Qed.

Section Discovery.
Variable path_join : list jsstring -> jsstring.

Lemma fold_entries (step : jsstring * fsnode -> list jsstring) :
  forall entries files,
    fold_left (fun fs e => fs ++ step e) entries files
    = files ++ flat_map step entries.
Proof.
  induction entries as [|e t IH]; intros files; cbn [fold_left flat_map].
  - rewrite app_nil_r. reflexivity.
  - rewrite IH, app_assoc. reflexivity.
Qed.

Lemma fold_left_ext_in {A B} (f g : A -> B -> A) :
  forall l a, (forall a b, In b l -> f a b = g a b) ->
              fold_left f l a = fold_left g l a.
Proof.
  induction l as [|b l IH]; intros a H; [reflexivity|].
  cbn [fold_left]. rewrite H by (left; reflexivity).
  apply IH. intros a' b' Hb. apply H. right. assumption.
Qed.

Lemma flat_map_filter_map {A B C} (f : A -> list B) (p : B -> bool)
  (g : B -> C) (l : list A) :
  flat_map (fun a => map g (filter p (f a))) l
  = map g (filter p (flat_map f l)).
Proof.
  induction l as [|a l IH]; [reflexivity|].
  cbn [flat_map]. rewrite filter_app, map_app, IH. reflexivity.
Qed.

Lemma filesOfEntry_spec :
  forall node fullPath name files,
    filesOfEntry path_join fullPath name node files
    = files ++ indexPaths (filesUnder path_join fullPath name node).
Proof.
  induction node as [| |entries IH] using fsnode_nested_ind;
    intros fullPath name files.
  - cbn [filesOfEntry filesUnder]. unfold indexPaths, isIndexFile.
    cbn [filter snd]. destruct (jsstring_eqb name (lit "index.mdx")).
    + reflexivity.
    + rewrite app_nil_r. reflexivity.
  - cbn. rewrite app_nil_r. reflexivity.
  - cbn [filesOfEntry filesUnder]. f_equal.
    rewrite (fold_left_ext_in _
               (fun fs e => fs ++ indexPaths
                  (filesUnder path_join (path_join [fullPath; fst e]) (fst e)
                     (snd e)))).
    + rewrite fold_entries. cbn [app]. unfold indexPaths.
      apply flat_map_filter_map.
    + intros a e He. rewrite Forall_forall in IH. apply (IH e He).
Qed.

(** C5. For every directory tree, [getAllIndexMDXFiles] returns the
    paths of the regular files named exactly [index.mdx], at any depth,
    in the order of the walk, and nothing else; for the tree with
    [a/index.mdx], [a/b/index.mdx] and [a/notes.mdx] it returns the two
    index files. *)
Theorem getAllIndexMDXFiles_exactly_index_files :
  (forall dir entries,
     getAllIndexMDXFiles path_join dir entries
     = map fst (filter isIndexFile (allFiles path_join dir entries)))
  /\ (forall dir entries p,
        In p (getAllIndexMDXFiles path_join dir entries)
        <-> exists name, In (p, name) (allFiles path_join dir entries)
                         /\ name = lit "index.mdx")
  /\ (forall root,
        getAllIndexMDXFiles path_join root demoTree
        = [path_join [path_join [root; lit "a"]; lit "index.mdx"];
           path_join [path_join [path_join [root; lit "a"]; lit "b"];
                      lit "index.mdx"]]).
Proof.
  assert (Hspec : forall dir entries,
     getAllIndexMDXFiles path_join dir entries
     = map fst (filter isIndexFile (allFiles path_join dir entries))).
  { intros dir entries. unfold getAllIndexMDXFiles, allFiles.
    rewrite (fold_left_ext_in _
               (fun fs e => fs ++ indexPaths
                  (filesUnder path_join (path_join [dir; fst e]) (fst e)
                     (snd e)))).
    - rewrite fold_entries. cbn [app]. unfold indexPaths.
      apply flat_map_filter_map.
    - intros a e _. apply filesOfEntry_spec. }
  split; [exact Hspec|]. split.
  - intros dir entries p. rewrite Hspec. rewrite in_map_iff. split.
    + intros [[p' name] [Hp Hin]]. cbn in Hp. subst p'.
      apply filter_In in Hin. destruct Hin as [Hin Hname].
      exists name. split; [assumption|].
      apply jsstring_eqb_eq. exact Hname.
    + intros [name [Hin Hname]]. exists (p, name). split; [reflexivity|].
      apply filter_In. split; [assumption|].
      apply jsstring_eqb_eq. exact Hname.
  - intros root. reflexivity.
Qed.

End Discovery.

Lemma getAllIndexMDXFiles_exactly_index_files_witness :
  getAllIndexMDXFiles demoJoin (lit "/site/contents/docs") demoTree
  = [lit "/site/contents/docs/a/index.mdx";
     lit "/site/contents/docs/a/b/index.mdx"].
Proof.
  destruct (getAllIndexMDXFiles_exactly_index_files demoJoin) as (_ & _ & H).
  rewrite H. reflexivity.
Defined.

(* ------------------------------------------------------------------ *)
(** ** Headings of a document *)

Section Headings.
Variable unicodeLower : jsstring -> jsstring.

Lemma headingVisitor_push node acc :
  headingVisitor unicodeLower node acc = acc ++ headingEntry unicodeLower node.
Proof.
  unfold headingEntry, headingVisitor.
  destruct (truthy (headingText node)
            && truthy (headingId unicodeLower (headingText node))).
  - reflexivity.
  - rewrite app_nil_r. reflexivity.
Qed.

Lemma truthy_nonempty (s : jsstring) : truthy s = true <-> s <> [].
Proof.
  destruct s; cbn; split; intros H; try discriminate; try reflexivity.
  contradiction H. reflexivity.
Qed.

Lemma headingEntry_nonempty node :
  Forall nonEmptyHeading (headingEntry unicodeLower node).
Proof.
  unfold headingEntry, headingVisitor.
  destruct (truthy (headingText node)) eqn:Ht;
    destruct (truthy (headingId unicodeLower (headingText node))) eqn:Hi;
    cbn [andb app]; constructor; [|constructor].
  split; cbn [h_text h_id]; apply truthy_nonempty; assumption.
Qed.

(** The traversal calls the visitor on the heading nodes, in preorder. *)
Lemma visit_preorder :
  forall tree acc,
    visit isHeading (headingVisitor unicodeLower) tree acc
    = acc ++ flat_map (headingEntry unicodeLower)
               (filter isHeading (preorder tree)).
Proof.
  induction tree as [t v children IH] using mdast_nested_ind. intros acc.
  cbn [visit preorder filter].
  set (node := MdNode t v children).
  assert (Hfold : forall st,
    fold_left (fun s child => visit isHeading (headingVisitor unicodeLower)
                                child s) children st
    = st ++ flat_map (headingEntry unicodeLower)
              (filter isHeading (flat_map preorder children))).
  { clear acc. induction children as [|c l IHl]; intros st.
    - cbn. rewrite app_nil_r. reflexivity.
    - inversion IH as [|? ? Hc Hl]; subst.
      cbn [fold_left flat_map]. rewrite IHl by assumption. rewrite Hc.
      rewrite filter_app, flat_map_app, app_assoc. reflexivity. }
  rewrite Hfold. destruct (isHeading node).
  - rewrite headingVisitor_push. cbn [flat_map]. rewrite app_assoc.
    reflexivity.
  - reflexivity.
Qed.

Lemma headingText_no_text node :
  (forall child, In child (md_children node) -> md_type child <> lit "text") ->
  headingText node = [].
Proof.
  intros H. unfold headingText.
  replace (filter _ (md_children node)) with (@nil mdast); [reflexivity|].
  symmetry. induction (md_children node) as [|c l IH]; [reflexivity|].
  cbn [filter].
  assert (Hc : jsstring_eqb (md_type c) (lit "text") = false).
  { apply jsstring_eqb_neq. apply H. left. reflexivity. }
  rewrite Hc. apply IH. intros child Hin. apply H. right. assumption.
Qed.

Variable path_join : list jsstring -> jsstring.
Variable path_relative : jsstring -> jsstring -> jsstring.
Variable path_dirname : jsstring -> jsstring.
Variable cwd : jsstring.
Variable matter : jsstring -> result (jsstring * FrontMatter).
Variable remarkParse : jsstring -> result mdast.
Variable remarkProcess : jsstring -> result jsstring.

(** C10. The headings of a document are what the visitor adds for the
    heading nodes of the tree, in preorder. A heading node none of whose
    direct children is a text node adds nothing, and so does one whose
    text has an empty id. Every heading collected from a tree, and so
    every heading of a [SearchDocument], has a non-empty text and a
    non-empty id. *)
Theorem headings_have_text_and_id :
  (forall tree,
     headingsOfTree unicodeLower tree
     = flat_map (fun node => headingVisitor unicodeLower node [])
         (filter isHeading (preorder tree)))
  /\ (forall node acc,
        (forall child, In child (md_children node) ->
                       md_type child <> lit "text") ->
        headingVisitor unicodeLower node acc = acc)
  /\ (forall node acc,
        headingId unicodeLower (headingText node) = [] ->
        headingVisitor unicodeLower node acc = acc)
  /\ (forall tree, Forall nonEmptyHeading (headingsOfTree unicodeLower tree))
  /\ (forall env filePath doc,
        extractTextFromMDX unicodeLower path_join path_relative path_dirname
          cwd matter remarkParse remarkProcess env filePath = Ok doc ->
        Forall nonEmptyHeading (headings doc)).
Proof.
  assert (Htree : forall tree,
            Forall nonEmptyHeading (headingsOfTree unicodeLower tree)).
  { intros tree. unfold headingsOfTree. rewrite visit_preorder. cbn [app].
    induction (filter isHeading (preorder tree)) as [|n l IH]; [constructor|].
    cbn [flat_map]. apply Forall_app.
    split; [apply headingEntry_nonempty|exact IH]. }
  split; [|split; [|split; [|split]]].
  - intros tree. unfold headingsOfTree. rewrite visit_preorder. reflexivity.
  - intros node acc H. unfold headingVisitor.
    rewrite (headingText_no_text node H). reflexivity.
  - intros node acc H. unfold headingVisitor. rewrite H.
    rewrite andb_false_r. reflexivity.
  - exact Htree.
  - intros env filePath doc. unfold extractTextFromMDX, extractHeadings.
    destruct (readFileSync env filePath) as [fileContent|]; [|discriminate].
    cbn [bind]. destruct (matter fileContent) as [parsed|]; [|discriminate].
    cbn [bind]. destruct (remarkProcess (fst parsed)); [|discriminate].
    cbn [bind]. destruct (remarkParse (fst parsed)) as [tree|]; [|discriminate].
    cbn [bind]. intros E. injection E as <-. cbn [headings]. apply Htree.
Qed.

End Headings.

Lemma headings_have_text_and_id_witness :
  headingsOfTree (fun s => s) demoDocument
  = [{| h_text := lit "Foo"; h_id := lit "foo" |}]
  /\ Forall nonEmptyHeading (headingsOfTree (fun s => s) demoDocument).
Proof.
  split; [reflexivity|].
  apply (headings_have_text_and_id (fun s => s) demoJoin (fun _ d => d)
           (fun p => p) [] (fun s => Ok (s, {| fm_title := None |}))
           (fun _ => Ok demoDocument) (fun s => Ok s)).
Defined.

(* ------------------------------------------------------------------ *)
(** ** The batch job *)

Lemma promiseAll_rejected {A B} (f : A -> result B) :
  forall l a, In a l -> isOk (f a) = false ->
              exists e, promiseAll (map f l) = Throw e.
Proof.
  induction l as [|x l IH]; intros a Hin Ha; [contradiction|].
  cbn [map promiseAll]. destruct (f x) as [b|e] eqn:Ex.
  - destruct Hin as [->|Hin]; [rewrite Ex in Ha; discriminate|].
    destruct (IH a Hin Ha) as [e He]. rewrite He. exists e. reflexivity.
  - exists e. reflexivity.
Qed.

Lemma promiseAll_fulfilled {A B} (f : A -> result B) :
  forall l, (forall a, In a l -> isOk (f a) = true) ->
            exists bs, promiseAll (map f l) = Ok bs.
Proof.
  induction l as [|x l IH]; intros H; [exists []; reflexivity|].
  cbn [map promiseAll]. destruct (f x) as [b|e] eqn:Ex.
  - destruct IH as [bs Hbs]; [intros a Ha; apply H; right; assumption|].
    rewrite Hbs. exists (b :: bs). reflexivity.
  - specialize (H x (or_introl eq_refl)). rewrite Ex in H. discriminate.
Qed.

(** The reason [Promise.all] is rejected with is the reason one of its
    promises is rejected with. *)
Lemma promiseAll_rejection_source {A B} (f : A -> result B) :
  forall l e, promiseAll (map f l) = Throw e ->
              exists a, In a l /\ f a = Throw e.
Proof.
  induction l as [|x l IH]; intros e H; [discriminate H|].
  cbn [map promiseAll] in H. destruct (f x) as [b|e'] eqn:Ex.
  - cbn [bind] in H.
    destruct (promiseAll (map f l)) as [bs|e''] eqn:El;
      [discriminate H|].
    cbn [bind] in H. destruct (IH e'' eq_refl) as (a & Hin & Ha).
    exists a. split; [right; exact Hin|]. rewrite Ha. congruence.
  - cbn [bind] in H. exists x. split; [left; reflexivity|].
    rewrite Ex. congruence.
Qed.

Section Batch.
Variable unicodeLower : jsstring -> jsstring.
Variable path_join : list jsstring -> jsstring.
Variable path_relative : jsstring -> jsstring -> jsstring.
Variable path_dirname : jsstring -> jsstring.
Variable cwd : jsstring.
Variable matter : jsstring -> result (jsstring * FrontMatter).
Variable remarkParse : jsstring -> result mdast.
Variable remarkProcess : jsstring -> result jsstring.
Variable JSON_stringify : list SearchDocument -> jsstring.

Local Abbreviation extract :=
  (extractTextFromMDX unicodeLower path_join path_relative path_dirname cwd
     matter remarkParse remarkProcess).
Local Abbreviation discovered env :=
  (getAllIndexMDXFiles path_join (DOCS_ROOT path_join cwd) (docsTree env)).
Local Abbreviation generate :=
  (generateSearchIndex unicodeLower path_join path_relative path_dirname cwd
     matter remarkParse remarkProcess JSON_stringify).
Local Abbreviation run :=
  (runScript unicodeLower path_join path_relative path_dirname cwd
     matter remarkParse remarkProcess JSON_stringify).

(** C2. When the extraction of one discovered document fails, the
    promise of [generateSearchIndex] is rejected and the process is left
    as it was: the output file keeps its previous content (or stays
    absent) and nothing is printed. *)
Theorem failed_extraction_writes_nothing (env : Environment) (p : Process)
  (file : jsstring) :
  In file (discovered env) ->
  isOk (extract env file) = false ->
  (exists e, generate env p = (p, Throw e))
  /\ artifact (fst (generate env p)) = artifact p
  /\ stdout (fst (generate env p)) = stdout p.
Proof.
  intros Hin Hfail.
  destruct (promiseAll_rejected (extract env) (discovered env) file Hin Hfail)
    as [e He].
  assert (Hgen : generate env p = (p, Throw e)).
  { unfold generateSearchIndex. rewrite He. reflexivity. }
  rewrite Hgen. split; [exists e; reflexivity|]. split; reflexivity.
Qed.

(** C3, amended. The script always ends with exit status 0. When an
    extraction fails or the output cannot be written, the promise of
    [generateSearchIndex] is rejected, and the error it is rejected with
    is the one line logged on [stderr], nothing being printed on
    [stdout]: that error is the one the extraction of a discovered file
    failed with and then the process is otherwise as it was, or else,
    every extraction having succeeded, the one the write of the index
    failed with. When every extraction succeeds and the output is
    written, the confirmation line is printed. *)
Theorem batch_job_logs_and_exits_normally (env : Environment) (p : Process) :
  snd (run env p) = 0%Z
  /\ ((exists file, In file (discovered env)
                    /\ isOk (extract env file) = false)
      \/ outputWritable env = false ->
      exists e,
        snd (generate env p) = Throw e
        /\ stderr (fst (run env p)) = stderr p ++ [e]
        /\ stdout (fst (run env p)) = stdout p
        /\ ((exists file, In file (discovered env)
                          /\ extract env file = Throw e
                          /\ fst (run env p) = console_error e p)
            \/ (exists index,
                  promiseAll (map (extract env) (discovered env)) = Ok index
                  /\ snd (writeOutput env (JSON_stringify index) p)
                     = Throw e)))
  /\ ((forall file, In file (discovered env) ->
                    isOk (extract env file) = true) ->
      outputWritable env = true ->
      exists index,
        promiseAll (map (extract env) (discovered env)) = Ok index
        /\ fst (run env p)
           = console_log (confirmation path_join cwd)
               {| artifact := Some (JSON_stringify index);
                  stdout := stdout p; stderr := stderr p |}).
Proof.
  unfold runScript, generateSearchIndex.
  split; [|split].
  - destruct (promiseAll (map (extract env) (discovered env))); [|reflexivity].
    unfold writeOutput. destruct (outputWritable env); reflexivity.
  - intros Hfail.
    destruct (promiseAll (map (extract env) (discovered env)))
      as [index|e] eqn:E.
    + destruct Hfail as [[file [Hin Hf]]|Hw].
      * destruct (promiseAll_rejected (extract env) _ file Hin Hf) as [e He].
        rewrite He in E. discriminate.
      * unfold writeOutput. rewrite Hw. exists (Error (lit "EACCES")).
        repeat split. right. exists index. split; reflexivity.
    + exists e. repeat split. left.
      destruct (promiseAll_rejection_source (extract env) _ e E)
        as (file & Hin & Hfile).
      exists file. repeat split; assumption.
  - intros Hall Hw.
    destruct (promiseAll_fulfilled (extract env) (discovered env) Hall)
      as [index Hindex].
    exists index. split; [assumption|].
    rewrite Hindex. unfold writeOutput. rewrite Hw. reflexivity.
Qed.

End Batch.

Lemma failed_extraction_writes_nothing_witness :
  artifact
    (fst (generateSearchIndex (fun s => s) demoJoin demoRelative demoDirname
            (lit "/site") demoMatter demoParse demoProcess demoStringify
            brokenEnvironment staleProcess))
  = Some (lit "[]").
Proof.
  destruct (failed_extraction_writes_nothing (fun s => s) demoJoin
              demoRelative demoDirname (lit "/site") demoMatter demoParse
              demoProcess demoStringify brokenEnvironment staleProcess
              (lit "/site/contents/docs/a/index.mdx"))
    as (_ & Hartifact & _).
  - left. reflexivity.
  - reflexivity.
  - exact Hartifact.
Defined.

(** C3 as stated fails: with an unreadable index file the rejection is
    handled by [console.error], and the exit status is 0. *)
Lemma batch_job_exits_zero_after_failure :
  ~ (forall unicodeLower path_join path_relative path_dirname cwd matter
            remarkParse remarkProcess JSON_stringify env p,
       (exists file,
           In file (getAllIndexMDXFiles path_join (DOCS_ROOT path_join cwd)
                      (docsTree env))
           /\ isOk (extractTextFromMDX unicodeLower path_join path_relative
                      path_dirname cwd matter remarkParse remarkProcess
                      env file) = false) ->
       snd (runScript unicodeLower path_join path_relative path_dirname cwd
              matter remarkParse remarkProcess JSON_stringify env p) <> 0%Z).
Proof.
  intros H.
  apply (H (fun s => s) demoJoin demoRelative demoDirname (lit "/site")
           demoMatter demoParse demoProcess demoStringify
           brokenEnvironment staleProcess).
  - exists (lit "/site/contents/docs/a/index.mdx"). split.
    + left. reflexivity.
    + reflexivity.
  - reflexivity.
Qed.

Lemma batch_job_logs_and_exits_normally_witness :
  (exists e,
      extractTextFromMDX (fun s => s) demoJoin demoRelative demoDirname
        (lit "/site") demoMatter demoParse demoProcess brokenEnvironment
        (lit "/site/contents/docs/a/index.mdx") = Throw e
      /\ stderr
           (fst (runScript (fun s => s) demoJoin demoRelative demoDirname
                   (lit "/site") demoMatter demoParse demoProcess
                   demoStringify brokenEnvironment staleProcess))
         = stderr staleProcess ++ [e])
  /\ (exists e,
        snd (generateSearchIndex (fun s => s) demoJoin demoRelative
               demoDirname (lit "/site") demoMatter demoParse demoProcess
               demoStringify readOnlyEnvironment staleProcess) = Throw e
        /\ stderr
             (fst (runScript (fun s => s) demoJoin demoRelative demoDirname
                     (lit "/site") demoMatter demoParse demoProcess
                     demoStringify readOnlyEnvironment staleProcess))
           = stderr staleProcess ++ [e])
  /\ snd (runScript (fun s => s) demoJoin demoRelative demoDirname
            (lit "/site") demoMatter demoParse demoProcess demoStringify
            soundEnvironment staleProcess) = 0%Z.
Proof.
  split; [|split].
  - destruct (batch_job_logs_and_exits_normally (fun s => s) demoJoin
                demoRelative demoDirname (lit "/site") demoMatter demoParse
                demoProcess demoStringify brokenEnvironment staleProcess)
      as (_ & Hfail & _).
    destruct Hfail as (e & Hrej & Herr & _).
    + left. exists (lit "/site/contents/docs/a/index.mdx").
      split; [left; reflexivity|reflexivity].
    + exists e. split; [|exact Herr].
      injection Hrej as <-. reflexivity.
  - destruct (batch_job_logs_and_exits_normally (fun s => s) demoJoin
                demoRelative demoDirname (lit "/site") demoMatter demoParse
                demoProcess demoStringify readOnlyEnvironment staleProcess)
      as (_ & Hfail & _).
    destruct Hfail as (e & Hrej & Herr & _).
    + right. reflexivity.
    + exists e. split; [exact Hrej|exact Herr].
  - apply (batch_job_logs_and_exits_normally (fun s => s) demoJoin
             demoRelative demoDirname (lit "/site") demoMatter demoParse
             demoProcess demoStringify soundEnvironment staleProcess).
Defined.

(* ------------------------------------------------------------------ *)
(** ** Bounded greedy quantifiers *)

Lemma withinMax_pred max j :
  withinMax max (S j) -> withinMax (option_map pred max) j.
Proof. destruct max as [m|]; cbn; [lia|trivial]. Qed.

Lemma withinMax_succ max j :
  max <> Some 0 -> withinMax (option_map pred max) j -> withinMax max (S j).
Proof.
  destruct max as [[|m]|]; cbn; intros H;
    [contradiction H; reflexivity|lia|trivial].
Qed.

Lemma withinMax_min_pred max min :
  withinMax max min -> withinMax (option_map pred max) (pred min).
Proof. destruct max as [m|]; cbn; [lia|trivial]. Qed.

Lemma greedy_none_within (p : code_unit -> bool) (k : cont) :
  forall rest min max prev caps,
    withinMax max min ->
    (forall j, min <= j <= runLength p rest -> withinMax max j ->
               k (after j prev rest caps) = None) ->
    greedy p min max k prev rest caps = None.
Proof.
  induction rest as [|c t IH]; intros min max prev caps Hwf H.
  - assert (Hstop : min = 0 -> k (MState prev [] caps) = None).
    { intros ->. apply (H 0); [cbn; lia|]. destruct max; cbn; [lia|trivial]. }
    cbn [greedy]. destruct max as [[|m]|].
    + apply Hstop. cbn in Hwf. lia.
    + destruct (min =? 0) eqn:E; [|reflexivity].
      apply Hstop, Nat.eqb_eq, E.
    + destruct (min =? 0) eqn:E; [|reflexivity].
      apply Hstop, Nat.eqb_eq, E.
  - assert (Hstop : min = 0 -> k (MState prev (c :: t) caps) = None).
    { intros ->. apply (H 0); [lia|]. destruct max; cbn; [lia|trivial]. }
    assert (Hstop' : (if min =? 0 then k (MState prev (c :: t) caps) else None)
                     = None).
    { destruct (min =? 0) eqn:E; [|reflexivity].
      apply Hstop, Nat.eqb_eq, E. }
    assert (Hmore : max <> Some 0 -> p c = true ->
              greedy p (pred min) (option_map pred max) k (c :: prev) t caps
              = None).
    { intros Hmax Hp. apply IH; [apply withinMax_min_pred; assumption|].
      intros j Hj Hw. rewrite <- after_cons. apply H.
      - cbn [runLength]. rewrite Hp. lia.
      - apply withinMax_succ; assumption. }
    cbn [greedy]. destruct max as [[|m]|].
    + apply Hstop. cbn in Hwf. lia.
    + rewrite Hstop'. destruct (p c) eqn:Hp; [|reflexivity].
      rewrite Hmore by (discriminate || reflexivity). reflexivity.
    + rewrite Hstop'. destruct (p c) eqn:Hp; [|reflexivity].
      rewrite Hmore by (discriminate || reflexivity). reflexivity.
Qed.

(** When one length only can let the continuation succeed, the
    quantifier's result is the continuation's there. *)
Lemma greedy_only (p : code_unit -> bool) (k : cont) :
  forall rest min max prev caps j0,
    withinMax max min ->
    min <= j0 <= runLength p rest -> withinMax max j0 ->
    (forall j, min <= j <= runLength p rest -> withinMax max j -> j <> j0 ->
               k (after j prev rest caps) = None) ->
    greedy p min max k prev rest caps = k (after j0 prev rest caps).
Proof.
  induction rest as [|c t IH]; intros min max prev caps j0 Hwf Hj0 Hw0 H.
  - cbn [runLength] in Hj0. assert (j0 = 0) by lia. subst j0.
    assert (min = 0) by lia. subst min.
    cbn [greedy]. destruct max as [[|m]|]; reflexivity.
  - destruct j0 as [|j0].
    + assert (min = 0) by lia. subst min.
      change (after 0 prev (c :: t) caps) with (MState prev (c :: t) caps).
      cbn [greedy Nat.eqb pred]. destruct max as [[|m]|]; [reflexivity| |].
      * destruct (p c) eqn:Hp; [|reflexivity].
        rewrite greedy_none_within; [reflexivity|cbn; lia|].
        intros j Hj Hw. rewrite <- after_cons. apply H; [|cbn in *; lia|lia].
        cbn [runLength]. rewrite Hp. lia.
      * destruct (p c) eqn:Hp; [|reflexivity].
        rewrite greedy_none_within; [reflexivity|cbn; trivial|].
        intros j Hj Hw. rewrite <- after_cons. apply H; [|cbn; trivial|lia].
        cbn [runLength]. rewrite Hp. lia.
    + assert (Hp : p c = true).
      { cbn [runLength] in Hj0. destruct (p c); [reflexivity|lia]. }
      assert (Hmax : max <> Some 0).
      { intros ->. cbn in Hw0. lia. }
      assert (Hstop : (if min =? 0 then k (MState prev (c :: t) caps) else None)
                      = None).
      { destruct (min =? 0) eqn:E; [|reflexivity]. apply Nat.eqb_eq in E.
        subst min. apply (H 0); [lia| |lia].
        destruct max; cbn; [lia|trivial]. }
      assert (Hrec :
        greedy p (pred min) (option_map pred max) k (c :: prev) t caps
        = k (after (S j0) prev (c :: t) caps)).
      { rewrite after_cons. apply IH.
        - apply withinMax_min_pred. assumption.
        - cbn [runLength] in Hj0. rewrite Hp in Hj0. lia.
        - apply withinMax_pred. assumption.
        - intros j Hj Hw Hne. rewrite <- after_cons. apply H.
          + cbn [runLength]. rewrite Hp. lia.
          + apply withinMax_succ; assumption.
          + lia. }
      cbn [greedy]. rewrite Hp, Hstop, Hrec.
      destruct max as [[|m]|]; [contradiction Hmax; reflexivity| |];
        destruct (k (after (S j0) prev (c :: t) caps)); reflexivity.
Qed.

(** The longest run is tried first. *)
Lemma greedy_longest (p : code_unit -> bool) (k : cont) :
  forall rest min prev caps z,
    min <= runLength p rest ->
    k (after (runLength p rest) prev rest caps) = Some z ->
    greedy p min None k prev rest caps = Some z.
Proof.
  induction rest as [|c t IH]; intros min prev caps z Hmin Hk.
  - cbn [runLength] in *. assert (min = 0) by lia. subst min.
    cbn [greedy Nat.eqb]. exact Hk.
  - cbn [runLength] in *. cbn [greedy]. destruct (p c) eqn:Hp.
    + rewrite after_cons in Hk. cbn [option_map].
      rewrite (IH (pred min) (c :: prev) caps z); [reflexivity|lia|assumption].
    + assert (min = 0) by lia. subst min. exact Hk.
Qed.

(* ------------------------------------------------------------------ *)
(** ** The heading pattern at one position *)

Lemma rmatch_group ml n r k x :
  rmatch ml (RGroup n r) k x = rmatch ml r (fun y => k (set_cap n x y)) x.
Proof. reflexivity. Qed.

Lemma rmatch_char ml p k x :
  rmatch ml (RChar p) k x
  = match m_rest x with
    | c :: t => if p c then k (advance c t x) else None
    | [] => None
    end.
Proof. reflexivity. Qed.

Lemma rmatch_bol_multi k x :
  rmatch true RBol k x = if atLineStart (m_prev x) then k x else None.
Proof. cbn. destruct (m_prev x); reflexivity. Qed.

Lemma rmatch_eol_multi k x :
  rmatch true REol k x
  = match m_rest x with
    | [] => k x
    | c :: _ => if isLineTerminator c then k x else None
    end.
Proof. cbn. destruct (m_rest x); reflexivity. Qed.

(** Inside a run the next unit is of the class. *)
Lemma skipn_in_run (p : code_unit -> bool) :
  forall s j, j < runLength p s ->
              exists c t, skipn j s = c :: t /\ p c = true.
Proof.
  induction s as [|a s IH]; intros j Hj; cbn [runLength] in Hj; [lia|].
  destruct (p a) eqn:Hp; [|lia].
  destruct j as [|j]; [exists a, s; split; [reflexivity|assumption]|].
  cbn [skipn]. apply IH. lia.
Qed.

(** After a run the next unit, if any, is outside the class. *)
Lemma skipn_run_end (p : code_unit -> bool) :
  forall s, match skipn (runLength p s) s with
            | [] => True
            | c :: _ => p c = false
            end.
Proof.
  induction s as [|a s IH]; cbn [runLength]; [exact I|].
  destruct (p a) eqn:Hp; [exact IH|exact Hp].
Qed.

Lemma consumed_after x j :
  j <= length (m_rest x) ->
  consumed x (after j (m_prev x) (m_rest x) (m_caps x)) = firstn j (m_rest x).
Proof.
  intros Hj. unfold consumed, after. cbn [m_rest].
  rewrite length_skipn. f_equal. lia.
Qed.

Lemma set_cap_after n prev rest caps caps' j :
  j <= length rest ->
  set_cap n (MState prev rest caps) (after j prev rest caps')
  = MState (rev (firstn j rest) ++ prev) (skipn j rest)
      ((n, firstn j rest) :: caps').
Proof.
  intros Hj. unfold set_cap, consumed, after. cbn [m_prev m_rest m_caps].
  rewrite length_skipn.
  replace (length rest - (length rest - j)) with j by lia. reflexivity.
Qed.

Lemma hash_not_space c : cls_is HASH c = true -> cls_space c = false.
Proof. unfold cls_is. intros H. apply N.eqb_eq in H. subst. reflexivity. Qed.

(** The tail of the heading pattern, [\s(.+)$], after the group of [#]. *)
Lemma heading_tail_match (pv rs : jsstring) (caps : list (nat * jsstring)) :
  rmatch true
    (RSeq (RChar cls_space) (RSeq (RGroup 2 (RPlus (RChar cls_dot))) REol))
    Some (MState pv rs caps)
  = match rs with
    | c :: r =>
        if cls_space c
        then match runLength cls_dot r with
             | O => None
             | S m =>
                 Some (MState (rev (firstn (S m) r) ++ c :: pv)
                         (skipn (S m) r) ((2, firstn (S m) r) :: caps))
             end
        else None
    | [] => None
    end.
Proof.
  rewrite rmatch_seq, rmatch_char. cbn [m_rest].
  destruct rs as [|c r]; [reflexivity|].
  destruct (cls_space c); [|reflexivity].
  unfold advance. cbn [m_prev m_caps].
  rewrite rmatch_seq, rmatch_group. unfold RPlus. rewrite rmatch_rep_char.
  cbn [m_prev m_rest m_caps].
  destruct (runLength cls_dot r) as [|m] eqn:Hm.
  - apply greedy_none. intros j Hj. lia.
  - apply greedy_longest; [lia|]. rewrite Hm.
    rewrite rmatch_eol_multi.
    rewrite set_cap_after by (rewrite <- Hm; apply runLength_le).
    cbn [m_rest m_prev].
    pose proof (skipn_run_end cls_dot r) as Hend. rewrite Hm in Hend.
    destruct (skipn (S m) r) as [|c' r'] eqn:Es; [reflexivity|].
    unfold cls_dot in Hend. apply negb_false_iff in Hend. rewrite Hend.
    reflexivity.
Qed.

(** The heading pattern at a position. *)
Lemma matchAt_heading (prev rest : jsstring) :
  matchAt true headingsRegex prev rest
  = if atLineStart prev then headingMatchState prev rest else None.
Proof.
  unfold matchAt, headingsRegex.
  rewrite rmatch_seq, rmatch_bol_multi. cbn [m_prev].
  destruct (atLineStart prev); [|reflexivity].
  rewrite rmatch_seq, rmatch_group, rmatch_rep_char. cbn [m_prev m_rest m_caps].
  unfold headingMatchState.
  set (n := runLength (cls_is HASH) rest).
  set (tail := RSeq (RChar cls_space)
                 (RSeq (RGroup 2 (RPlus (RChar cls_dot))) REol)).
  assert (Hshort : forall j, j < n ->
            rmatch true tail Some
              (set_cap 1 (MState prev rest []) (after j prev rest [])) = None).
  { intros j Hj.
    rewrite set_cap_after
      by (pose proof (runLength_le (cls_is HASH) rest); fold n in H; lia).
    unfold tail. rewrite heading_tail_match.
    destruct (skipn_in_run (cls_is HASH) rest j Hj) as (c & t & Es & Hc).
    rewrite Es, (hash_not_space c Hc). reflexivity. }
  destruct ((2 <=? n) && (n <=? 4)) eqn:Hn.
  - apply andb_true_iff in Hn. destruct Hn as [H2 H4].
    apply Nat.leb_le in H2, H4.
    rewrite (greedy_only _ _ rest 2 (Some 4) prev [] n).
    + rewrite set_cap_after by apply runLength_le.
      unfold tail. rewrite heading_tail_match. fold n.
      destruct (skipn n rest) as [|c r]; [reflexivity|].
      destruct (cls_space c); [|reflexivity].
      destruct (runLength cls_dot r); reflexivity.
    + cbn. lia.
    + fold n. lia.
    + cbn. lia.
    + fold n. intros j Hj _ Hne. apply Hshort. lia.
  - apply greedy_none_within; [cbn; lia|].
    fold n. intros j Hj Hw. apply Hshort. cbn in Hw.
    apply andb_false_iff in Hn. destruct Hn as [Hn|Hn];
      apply Nat.leb_gt in Hn; lia.
Qed.

(* ------------------------------------------------------------------ *)
(** ** Lines *)

Lemma firstn_runLength p s : firstn (runLength p s) s = takeRun p s.
Proof.
  induction s as [|c t IH]; cbn; [reflexivity|].
  destruct (p c); cbn; [rewrite IH|]; reflexivity.
Qed.

Lemma skipn_runLength p s : skipn (runLength p s) s = dropRun p s.
Proof.
  induction s as [|c t IH]; cbn; [reflexivity|].
  destruct (p c); cbn; [rewrite IH|]; reflexivity.
Qed.

Lemma length_takeRun p s : length (takeRun p s) = runLength p s.
Proof.
  induction s as [|c t IH]; cbn; [reflexivity|].
  destruct (p c); cbn; [rewrite IH|]; reflexivity.
Qed.

Lemma takeRun_dropRun p s : takeRun p s ++ dropRun p s = s.
Proof.
  induction s as [|c t IH]; cbn; [reflexivity|].
  destruct (p c); cbn; [rewrite IH|]; reflexivity.
Qed.

Lemma takeRun_forallb p s : forallb p (takeRun p s) = true.
Proof.
  induction s as [|c t IH]; cbn; [reflexivity|].
  destruct (p c) eqn:Hp; cbn; [rewrite Hp, IH|]; reflexivity.
Qed.

Lemma dropRun_head p s :
  match dropRun p s with [] => True | c :: _ => p c = false end.
Proof.
  rewrite <- skipn_runLength. apply skipn_run_end.
Qed.

Lemma runLength_takeRun_sub (p q : code_unit -> bool) :
  (forall c, p c = true -> q c = true) ->
  forall s, runLength p (takeRun q s) = runLength p s.
Proof.
  intros Hpq. induction s as [|c t IH]; cbn; [reflexivity|].
  destruct (q c) eqn:Hq; cbn.
  - destruct (p c); [rewrite IH|]; reflexivity.
  - destruct (p c) eqn:Hp; [|reflexivity].
    rewrite (Hpq c Hp) in Hq. discriminate.
Qed.

Lemma skipn_takeRun_sub (p q : code_unit -> bool) :
  (forall c, p c = true -> q c = true) ->
  forall s, skipn (runLength p s) (takeRun q s)
            = takeRun q (skipn (runLength p s) s).
Proof.
  intros Hpq. induction s as [|c t IH]; cbn; [reflexivity|].
  destruct (p c) eqn:Hp.
  - rewrite (Hpq c Hp). cbn. exact IH.
  - cbn. reflexivity.
Qed.

Lemma takeRun_app_all (q : code_unit -> bool) l t :
  forallb q l = true -> takeRun q (l ++ t) = l ++ takeRun q t.
Proof.
  induction l as [|a l IH]; cbn; [reflexivity|]. intros H.
  apply andb_true_iff in H. destruct H as [Ha Hl].
  rewrite Ha, IH by assumption. reflexivity.
Qed.

Lemma dropRun_app_all (q : code_unit -> bool) l t :
  forallb q l = true -> dropRun q (l ++ t) = dropRun q t.
Proof.
  induction l as [|a l IH]; cbn; [reflexivity|]. intros H.
  apply andb_true_iff in H. destruct H as [Ha Hl].
  rewrite Ha, IH by assumption. reflexivity.
Qed.

Lemma hash_is_dot c : cls_is HASH c = true -> cls_dot c = true.
Proof. unfold cls_is. intros H. apply N.eqb_eq in H. subst. reflexivity. Qed.

Lemma terminator_is_space c : cls_dot c = false -> cls_space c = true.
Proof.
  unfold cls_dot, cls_space. intros H. apply negb_false_iff in H.
  rewrite H. apply orb_true_r.
Qed.

Lemma truthy_takeRun p s :
  truthy (takeRun p s) = match runLength p s with O => false | S _ => true end.
Proof.
  destruct s as [|c t]; cbn; [reflexivity|]. destruct (p c); reflexivity.
Qed.

(** The first line of a text and what follows it. *)
Lemma lines_unfold s :
  lines s = takeRun cls_dot s ::
            match dropRun cls_dot s with
            | [] => []
            | _ :: more => lines more
            end.
Proof.
  induction s as [|c t IH]; [reflexivity|].
  cbn [lines takeRun dropRun].
  assert (E : cls_dot c = negb (isLineTerminator c)) by reflexivity.
  rewrite E. destruct (isLineTerminator c); cbn [negb].
  - reflexivity.
  - rewrite IH. reflexivity.
Qed.

(** The match at the start of a line against the reading of that line. *)
Lemma heading_match_on_line (prev s : jsstring) :
  negb (bareHashes (takeRun cls_dot s)
        && truthy (takeRun cls_dot (tl (dropRun cls_dot s)))) = true ->
  map matchInfo (optionList (headingMatchState prev s))
  = map Some (optionList (lineHeading (takeRun cls_dot s)))
  /\ (forall y, headingMatchState prev s = Some y ->
                m_prev y = rev (takeRun cls_dot s) ++ prev
                /\ m_rest y = dropRun cls_dot s
                /\ takeRun cls_dot s <> []).
Proof.
  intros Hok. unfold headingMatchState, lineHeading.
  rewrite (runLength_takeRun_sub _ _ hash_is_dot).
  rewrite (skipn_takeRun_sub _ _ hash_is_dot).
  set (n := runLength (cls_is HASH) s).
  assert (Hsplit : s = firstn n s ++ skipn n s)
    by (symmetry; apply firstn_skipn).
  assert (Hfirst : firstn n s = takeRun (cls_is HASH) s)
    by apply firstn_runLength.
  assert (Hlen : length (firstn n s) = n).
  { rewrite Hfirst. apply length_takeRun. }
  assert (Hdots : forallb cls_dot (firstn n s) = true).
  { rewrite Hfirst. generalize (takeRun_forallb (cls_is HASH) s).
    apply forallb_impl. apply hash_is_dot. }
  destruct ((2 <=? n) && (n <=? 4)) eqn:Hn;
    [|split; [reflexivity|intros y Hy; discriminate]].
  destruct (skipn n s) as [|c r] eqn:Es;
    [split; [reflexivity|intros y Hy; discriminate]|].
  cbn [takeRun]. destruct (cls_dot c) eqn:Hdot.
  - (* the unit after the hashes is on the line *)
    rewrite truthy_takeRun.
    destruct (cls_space c); cbn [andb];
      [|split; [reflexivity|intros y Hy; discriminate]].
    destruct (runLength cls_dot r) as [|m] eqn:Hm;
      [split; [reflexivity|intros y Hy; discriminate]|].
    assert (Htext : firstn (S m) r = takeRun cls_dot r).
    { rewrite <- Hm. apply firstn_runLength. }
    assert (Hline : takeRun cls_dot s
                    = firstn n s ++ c :: takeRun cls_dot r).
    { rewrite Hsplit at 1. rewrite takeRun_app_all by assumption.
      cbn [takeRun]. rewrite Hdot. reflexivity. }
    assert (Hrest : dropRun cls_dot s = dropRun cls_dot r).
    { rewrite Hsplit at 1. rewrite dropRun_app_all by assumption.
      cbn [dropRun]. rewrite Hdot. reflexivity. }
    split.
    + cbn [optionList map]. unfold matchInfo. cbn [m_caps capture Nat.eqb].
      rewrite Hlen, Htext. reflexivity.
    + intros y Hy. apply (f_equal optionList) in Hy. cbn [optionList] in Hy.
      assert (Hy' : y = MState (rev (firstn (S m) r) ++
                                c :: rev (firstn n s) ++ prev)
                          (skipn (S m) r)
                          [(2, firstn (S m) r); (1, firstn n s)])
        by congruence.
      clear Hy. subst y. unfold m_prev, m_rest.
      rewrite Hline, Hrest, Htext, rev_app_distr. cbn [rev].
      rewrite <- !app_assoc. cbn [app].
      rewrite <- Hm, skipn_runLength.
      repeat split. destruct (firstn n s); discriminate.
  - (* the unit after the hashes is a line terminator *)
    rewrite (terminator_is_space c Hdot).
    destruct (runLength cls_dot r) as [|m] eqn:Hm;
      [split; [reflexivity|intros y Hy; discriminate]|].
    exfalso.
    assert (Hline : takeRun cls_dot s = firstn n s).
    { rewrite Hsplit at 1. rewrite takeRun_app_all by assumption.
      cbn [takeRun]. rewrite Hdot. apply app_nil_r. }
    assert (Hrest : dropRun cls_dot s = c :: r).
    { rewrite Hsplit at 1. rewrite dropRun_app_all by assumption.
      cbn [dropRun]. rewrite Hdot. reflexivity. }
    rewrite Hline, Hrest in Hok. cbn [tl] in Hok.
    unfold bareHashes in Hok. rewrite Hlen, Hn in Hok.
    rewrite Hfirst, takeRun_forallb in Hok. cbn [andb] in Hok.
    rewrite truthy_takeRun, Hm in Hok. discriminate Hok.
Qed.

(* ------------------------------------------------------------------ *)
(** ** The search loop of the table of contents *)

Lemma execLoopFrom_skip ml r :
  forall s prev k,
    k <= length s ->
    execLoopFrom ml r prev s k
    = execLoopFrom ml r (rev (firstn k s) ++ prev) (skipn k s) 0.
Proof.
  induction s as [|c t IH]; intros prev k Hk.
  - cbn [length] in Hk. assert (k = 0) by lia. subst k. reflexivity.
  - destruct k as [|k]; [reflexivity|].
    cbn [execLoopFrom firstn skipn rev]. rewrite <- app_assoc.
    apply IH. cbn [length] in Hk. lia.
Qed.

Lemma headingMatchState_no_hash prev rest :
  runLength (cls_is HASH) rest = 0 -> headingMatchState prev rest = None.
Proof. intros H. unfold headingMatchState. rewrite H. reflexivity. Qed.

Lemma runLength_hash_at_terminator (rest : jsstring) :
  match rest with [] => True | c :: _ => cls_dot c = false end ->
  runLength (cls_is HASH) rest = 0.
Proof.
  destruct rest as [|c t]; [reflexivity|]. intros H. cbn.
  destruct (cls_is HASH c) eqn:E; [|reflexivity].
  rewrite (hash_is_dot c E) in H. discriminate.
Qed.

(** Past the start of a line nothing matches before the line ends. *)
Lemma execLoop_inside_line :
  forall s prev,
    atLineStart prev = false ->
    execLoopFrom true headingsRegex prev s 0
    = execLoopFrom true headingsRegex
        (rev (takeRun cls_dot s) ++ prev) (dropRun cls_dot s) 0.
Proof.
  induction s as [|c t IH]; intros prev Hprev; [reflexivity|].
  cbn [takeRun dropRun]. destruct (cls_dot c) eqn:Hdot; [|reflexivity].
  cbn [execLoopFrom]. rewrite matchAt_heading, Hprev.
  rewrite IH.
  - cbn [rev]. rewrite <- app_assoc. reflexivity.
  - cbn [atLineStart]. unfold cls_dot in Hdot.
    apply negb_true_iff in Hdot. exact Hdot.
Qed.

(** At the end of a line the search moves to the next line. *)
Lemma execLoop_line_end (prev rest : jsstring) :
  match rest with [] => True | c :: _ => cls_dot c = false end ->
  execLoopFrom true headingsRegex prev rest 0
  = match rest with
    | [] => Some []
    | c :: more => execLoopFrom true headingsRegex (c :: prev) more 0
    end.
Proof.
  intros H.
  assert (Hnone : matchAt true headingsRegex prev rest = None).
  { rewrite matchAt_heading.
    rewrite (headingMatchState_no_hash prev rest
               (runLength_hash_at_terminator rest H)).
    destruct (atLineStart prev); reflexivity. }
  destruct rest as [|c more]; cbn [execLoopFrom]; rewrite Hnone; reflexivity.
Qed.

Lemma option_map_app_nil {A} (o : option (list A)) :
  option_map (app []) o = o.
Proof. destruct o; reflexivity. Qed.

(** One line, from its start. *)
Lemma execLoop_line (prev s : jsstring) :
  atLineStart prev = true ->
  negb (bareHashes (takeRun cls_dot s)
        && truthy (takeRun cls_dot (tl (dropRun cls_dot s)))) = true ->
  execLoopFrom true headingsRegex prev s 0
  = option_map (app (optionList (headingMatchState prev s)))
      (execLoopFrom true headingsRegex
         (rev (takeRun cls_dot s) ++ prev) (dropRun cls_dot s) 0).
Proof.
  intros Hprev Hok.
  destruct (heading_match_on_line prev s Hok) as [_ Hstate].
  destruct (headingMatchState prev s) as [y|] eqn:Hy.
  - destruct (Hstate y eq_refl) as (Hpv & Hrs & Hne).
    destruct s as [|c t]; [contradiction Hne; reflexivity|].
    assert (Hlen : matchLength (c :: t) y
                   = S (pred (runLength cls_dot (c :: t)))).
    { unfold matchLength. rewrite Hrs.
      rewrite <- (takeRun_dropRun cls_dot (c :: t)) at 1.
      rewrite length_app, length_takeRun.
      assert (runLength cls_dot (c :: t) <> 0).
      { rewrite <- length_takeRun. destruct (takeRun cls_dot (c :: t));
          [contradiction Hne; reflexivity|discriminate]. }
      lia. }
    assert (Hrun : runLength cls_dot (c :: t)
                   = S (pred (runLength cls_dot (c :: t)))).
    { rewrite <- Hlen. unfold matchLength. rewrite Hrs.
      rewrite <- (takeRun_dropRun cls_dot (c :: t)) at 2.
      rewrite length_app, length_takeRun. lia. }
    cbn [execLoopFrom]. rewrite matchAt_heading, Hprev, Hy, Hlen.
    cbn [optionList]. f_equal.
    rewrite execLoopFrom_skip.
    2:{ pose proof (runLength_le cls_dot (c :: t)). cbn [length] in *. lia. }
    rewrite <- firstn_runLength, <- skipn_runLength, Hrun.
    cbn [firstn skipn rev]. rewrite <- app_assoc. reflexivity.
  - cbn [optionList]. rewrite option_map_app_nil.
    destruct s as [|c t]; [reflexivity|].
    cbn [takeRun dropRun]. destruct (cls_dot c) eqn:Hdot; [|reflexivity].
    cbn [execLoopFrom]. rewrite matchAt_heading, Hprev, Hy.
    rewrite execLoop_inside_line.
    + cbn [rev]. rewrite <- app_assoc. reflexivity.
    + cbn [atLineStart]. unfold cls_dot in Hdot.
      apply negb_true_iff in Hdot. exact Hdot.
Qed.

Lemma headingsOfLines_cons l ls :
  headingsOfLines (l :: ls) = optionList (lineHeading l) ++ headingsOfLines ls.
Proof. cbn. destruct (lineHeading l); reflexivity. Qed.

Lemma length_dropRun_tail p s c more :
  dropRun p s = c :: more -> length more < length s.
Proof.
  intros H. rewrite <- (takeRun_dropRun p s), H, length_app. cbn. lia.
Qed.

(** The whole text, from the start of a line. *)
Lemma execLoop_lines :
  forall len s prev,
    length s <= len ->
    atLineStart prev = true ->
    noBrokenHeading (lines s) = true ->
    exists ms,
      execLoopFrom true headingsRegex prev s 0 = Some ms
      /\ map matchInfo ms = map Some (headingsOfLines (lines s)).
Proof.
  induction len as [|len IH]; intros s prev Hlen Hprev Hok.
  - destruct s; [|cbn in Hlen; lia]. exists [].
    rewrite (execLoop_line_end prev [] I). split; reflexivity.
  - rewrite lines_unfold in Hok |- *. rewrite headingsOfLines_cons.
    pose proof (dropRun_head cls_dot s) as Hhead.
    assert (Hfirst : negb (bareHashes (takeRun cls_dot s)
              && truthy (takeRun cls_dot (tl (dropRun cls_dot s)))) = true).
    { destruct (dropRun cls_dot s) as [|c more]; cbn [tl].
      - cbn. rewrite andb_false_r. reflexivity.
      - rewrite (lines_unfold more) in Hok. cbn [noBrokenHeading] in Hok.
        apply andb_true_iff in Hok. apply Hok. }
    rewrite (execLoop_line prev s Hprev Hfirst).
    rewrite (execLoop_line_end _ _ Hhead).
    destruct (heading_match_on_line prev s Hfirst) as [Hinfo _].
    destruct (dropRun cls_dot s) as [|c more] eqn:Hrest.
    + exists (optionList (headingMatchState prev s) ++ []).
      split; [reflexivity|]. cbn [headingsOfLines].
      rewrite !app_nil_r. exact Hinfo.
    + destruct (IH more (c :: rev (takeRun cls_dot s) ++ prev))
        as [ms [Hms Hi]].
      * pose proof (length_dropRun_tail _ _ _ _ Hrest). lia.
      * cbn [atLineStart]. unfold cls_dot in Hhead.
        apply negb_false_iff in Hhead. exact Hhead.
      * rewrite (lines_unfold more) in Hok. cbn [noBrokenHeading] in Hok.
        apply andb_true_iff in Hok. destruct Hok as [_ Hok].
        rewrite lines_unfold. exact Hok.
      * exists (optionList (headingMatchState prev s) ++ ms).
        rewrite Hms. split; [reflexivity|].
        rewrite !map_app, Hinfo, Hi. reflexivity.
Qed.

Section Toc.
Variable unicodeLower : jsstring -> jsstring.

Lemma tocEntries_of_infos :
  forall ms hs,
    map matchInfo ms = map Some hs ->
    exists es, tocEntries unicodeLower ms = Ok es
               /\ tocLevelsAndTexts es = hs
               /\ Forall (hrefOfText unicodeLower) es.
Proof.
  induction ms as [|m ms IH]; intros hs H.
  - destruct hs; [|discriminate]. exists []. repeat split. constructor.
  - destruct hs as [|h hs]; [discriminate|].
    cbn [map] in H. injection H as Hm Hrest.
    destruct (IH hs Hrest) as (es & Hes & Hlt & Hhref).
    unfold matchInfo in Hm. cbn [tocEntries]. unfold tocEntry.
    destruct (capture 1 (m_caps m)) as [g1|]; [|discriminate].
    destruct (capture 2 (m_caps m)) as [g2|]; [|discriminate].
    injection Hm as <-. cbn [bind]. rewrite Hes. cbn [bind].
    eexists. split; [reflexivity|]. split.
    + cbn [tocLevelsAndTexts map level text]. f_equal. exact Hlt.
    + constructor; [reflexivity|exact Hhref].
Qed.

(** X1. For every raw text in which no line made only of two to four
    [#] is directly followed by a non-empty line, [extractToc] returns
    one entry per line that has two to four leading [#], a white-space
    unit and a non-empty remainder, in source order and for no other
    line; the level is the number of leading [#], the text the remainder
    trimmed, and the [href] is [#] and the slug of the text. *)
Theorem extractToc_by_lines (rawMdx : jsstring) :
  noBrokenHeading (lines rawMdx) = true ->
  exists entries,
    extractToc unicodeLower rawMdx = Some (Ok entries)
    /\ tocLevelsAndTexts entries = tocByLines rawMdx
    /\ Forall (hrefOfText unicodeLower) entries.
Proof.
  intros Hok.
  destruct (execLoop_lines (length rawMdx) rawMdx [] (Nat.le_refl _) eq_refl
              Hok) as (ms & Hms & Hinfo).
  destruct (tocEntries_of_infos ms _ Hinfo) as (es & Hes & Hlt & Hhref).
  exists es. unfold extractToc, execLoop. rewrite Hms. cbn [option_map].
  rewrite Hes. repeat split; assumption.
Qed.

End Toc.

Lemma extractToc_by_lines_witness :
  noBrokenHeading (lines demoMdx) = true
  /\ exists entries,
       extractToc (fun s => s) demoMdx = Some (Ok entries)
       /\ tocLevelsAndTexts entries
          = [(2, lit "Prerequisites"); (3, lit "pnpm");
             (4, lit "Quick Overview")].
Proof.
  split; [reflexivity|].
  destruct (extractToc_by_lines (fun s => s) demoMdx eq_refl)
    as (entries & Hrun & Hinfo & _).
  exists entries. split; [exact Hrun|]. rewrite Hinfo. reflexivity.
Defined.

(* ------------------------------------------------------------------ *)
(** ** Termination of the search loop *)

(** A match of the heading pattern is never empty and carries both
    captures, the first of two to four units. *)
Lemma headingMatchState_progress prev rest y :
  headingMatchState prev rest = Some y ->
  (exists n, matchLength rest y = S n) /\ levelInRange y.
Proof.
  unfold headingMatchState. set (n := runLength (cls_is HASH) rest).
  destruct ((2 <=? n) && (n <=? 4)) eqn:Hn; [|discriminate].
  destruct (skipn n rest) as [|c r] eqn:Es; [discriminate|].
  destruct (cls_space c); [|discriminate].
  destruct (runLength cls_dot r) as [|m] eqn:Hm; [discriminate|].
  intros H.
  assert (Hy : y = MState (rev (firstn (S m) r) ++
                           c :: rev (firstn n rest) ++ prev)
                     (skipn (S m) r)
                     [(2, firstn (S m) r); (1, firstn n rest)])
    by congruence.
  clear H. subst y. split.
  - unfold matchLength, m_rest.
    assert (Hlen : length rest = length (firstn n rest) + S (length r)).
    { rewrite <- (firstn_skipn n rest) at 1. rewrite Es, length_app.
      reflexivity. }
    rewrite length_skipn.
    exists (length rest - (length r - S m) - 1).
    pose proof (runLength_le cls_dot r). lia.
  - unfold levelInRange, matchInfo. cbn [m_caps capture Nat.eqb].
    exists (length (firstn n rest)), (trim (firstn (S m) r)).
    split; [reflexivity|].
    pose proof (firstn_runLength (cls_is HASH) rest) as Hf. fold n in Hf.
    rewrite Hf, length_takeRun. fold n.
    apply andb_true_iff in Hn. destruct Hn as [H2 H4].
    apply Nat.leb_le in H2, H4. lia.
Qed.

Lemma execLoop_total :
  forall s prev skip,
    exists ms,
      execLoopFrom true headingsRegex prev s skip = Some ms
      /\ Forall levelInRange ms.
Proof.
  induction s as [|c t IH]; intros prev skip.
  - destruct skip; [|exists []; split; [reflexivity|constructor]].
    exists []. rewrite (execLoop_line_end prev [] I).
    split; [reflexivity|constructor].
  - destruct skip as [|k]; [|cbn [execLoopFrom]; apply IH].
    cbn [execLoopFrom].
    destruct (matchAt true headingsRegex prev (c :: t)) as [y|] eqn:Hy;
      [|apply IH].
    rewrite matchAt_heading in Hy.
    destruct (atLineStart prev); [|discriminate].
    destruct (headingMatchState_progress _ _ _ Hy) as [[n Hn] Hinfo].
    rewrite Hn. destruct (IH (c :: prev) n) as (ms & Hms & Hall).
    exists (y :: ms). rewrite Hms. split; [reflexivity|].
    constructor; assumption.
Qed.

Lemma tocEntries_total (unicodeLower : jsstring -> jsstring) :
  forall ms, Forall levelInRange ms ->
             exists es, tocEntries unicodeLower ms = Ok es
                        /\ Forall (fun e => 2 <= level e <= 4
                                            /\ hrefOfText unicodeLower e) es.
Proof.
  induction ms as [|m ms IH]; intros H.
  - exists []. split; [reflexivity|constructor].
  - inversion H as [|? ? Hm Hms]; subst.
    destruct (IH Hms) as (es & Hes & Hall).
    destruct Hm as (lvl & txt & Hm & Hlvl).
    unfold matchInfo in Hm. cbn [tocEntries]. unfold tocEntry.
    destruct (capture 1 (m_caps m)) as [g1|]; [|discriminate].
    destruct (capture 2 (m_caps m)) as [g2|]; [|discriminate].
    injection Hm as Hl _. cbn [bind]. rewrite Hes. cbn [bind].
    eexists. split; [reflexivity|].
    constructor; [|exact Hall]. cbn [level]. split; [lia|reflexivity].
Qed.

(** X2. On every raw text the loop of [getDocsTocs] ends and no capture
    is missing: [extractToc] returns a list of entries, each of a level
    from 2 to 4 and with [#] and the slug of its text as [href]. *)
Theorem extractToc_returns (unicodeLower : jsstring -> jsstring)
  (rawMdx : jsstring) :
  exists entries,
    extractToc unicodeLower rawMdx = Some (Ok entries)
    /\ Forall (fun e => 2 <= level e <= 4 /\ hrefOfText unicodeLower e)
         entries.
Proof.
  destruct (execLoop_total rawMdx [] 0) as (ms & Hms & Hall).
  destruct (tocEntries_total unicodeLower ms Hall) as (es & Hes & Hes').
  exists es. unfold extractToc, execLoop. rewrite Hms. cbn [option_map].
  rewrite Hes. split; [reflexivity|exact Hes'].
Qed.

(** X3. Whatever the text, its slug is made of lowercase ASCII letters,
    digits and dashes only. *)
Theorem sluggify_alphabet (unicodeLower : jsstring -> jsstring)
  (text : jsstring) :
  forallb (fun c => isLowerAZ c || isDigit c || (c =? DASH)%N)
    (sluggify unicodeLower text) = true.
Proof.
  unfold sluggify, notSlugRegex. rewrite replaceAll_char_delete.
  apply forallb_forall. intros c Hc. apply filter_In in Hc.
  destruct Hc as [_ Hc]. unfold cls_not_slug in Hc.
  rewrite negb_involutive in Hc. exact Hc.
Qed.

(* ------------------------------------------------------------------ *)
(** ** A heading broken over two lines *)

(** C6. As stated it fails on the text [##], line feed, [foo]: neither of
    its two lines matches the heading pattern, yet [extractToc] returns
    an entry of level 2 with text [foo], because the white-space unit of
    the pattern is matched by the line feed. On a document whose headings
    each stand on one line the entries are those of the lines (levels 1
    and 5 ignored). *)
Theorem extractToc_heading_broken_over_lines
  (unicodeLower : jsstring -> jsstring) :
  extractToc unicodeLower hashesThenText
  = Some (Ok [{| level := 2; text := lit "foo"; href := lit "#foo" |}])
  /\ tocByLines hashesThenText = []
  /\ lines hashesThenText = [lit "##"; lit "foo"]
  /\ extractToc unicodeLower demoMdx
     = Some (Ok [{| level := 2; text := lit "Prerequisites";
                    href := lit "#prerequisites" |};
                 {| level := 3; text := lit "pnpm"; href := lit "#pnpm" |};
                 {| level := 4; text := lit "Quick Overview";
                    href := lit "#quick-overview" |}])
  /\ tocByLines demoMdx
     = [(2, lit "Prerequisites"); (3, lit "pnpm"); (4, lit "Quick Overview")].
Proof.
  repeat split; vm_compute; reflexivity.
Qed.

(* ================================================================== *)
(** * Further properties of the code *)

(* ------------------------------------------------------------------ *)
(** ** The pattern that strips edge dashes, on any text *)

Lemma replaceFrom_skip ml r rep :
  forall s prev k,
    k <= length s ->
    replaceFrom ml r rep prev s k
    = replaceFrom ml r rep (rev (firstn k s) ++ prev) (skipn k s) 0.
Proof.
  induction s as [|c t IH]; intros prev k Hk.
  - cbn [length] in Hk. assert (k = 0) by lia. subst k. reflexivity.
  - destruct k as [|k]; [reflexivity|].
    cbn [replaceFrom firstn skipn rev]. rewrite <- app_assoc.
    apply IH. cbn [length] in Hk. lia.
Qed.

Lemma runLength_all (p : code_unit -> bool) s :
  forallb p s = true <-> runLength p s = length s.
Proof.
  induction s as [|c t IH]; cbn; [tauto|].
  destruct (p c); cbn.
  - rewrite IH. split; intros H; [f_equal; exact H|injection H as H; exact H].
  - split; intros H; discriminate.
Qed.

(** [-+$] past the start of the text: the rest, when it is all dashes. *)
Lemma matchAt_edge_interior (prev rest : jsstring) :
  prev <> [] ->
  matchAt false edgeDashesRegex prev rest
  = if forallb (cls_is DASH) rest && truthy rest
    then Some (after (length rest) prev rest [])
    else None.
Proof.
  intros Hprev. unfold matchAt, edgeDashesRegex, RPlus.
  rewrite rmatch_alt, !rmatch_seq, rmatch_bol_single. cbn [m_prev].
  destruct prev as [|a prev']; [contradiction Hprev; reflexivity|].
  rewrite rmatch_rep_char. cbn [m_prev m_rest m_caps].
  destruct (forallb (cls_is DASH) rest && truthy rest) eqn:Hall.
  - apply andb_true_iff in Hall. destruct Hall as [Hall Hne].
    apply runLength_all in Hall.
    apply greedy_longest.
    + rewrite Hall. destruct rest; [discriminate|cbn; lia].
    + rewrite Hall, rmatch_eol_single. unfold after. cbn [m_rest].
      rewrite skipn_all. reflexivity.
  - apply greedy_none. intros j [Hj1 Hj2].
    rewrite rmatch_eol_single. unfold after. cbn [m_rest].
    destruct (skipn j rest) eqn:E; [|reflexivity].
    exfalso.
    assert (Hlen : length (skipn j rest) = 0) by (rewrite E; reflexivity).
    rewrite length_skipn in Hlen.
    pose proof (runLength_le (cls_is DASH) rest) as Hle.
    assert (Hfull : runLength (cls_is DASH) rest = length rest) by lia.
    apply runLength_all in Hfull. rewrite Hfull in Hall.
    destruct rest; [cbn in Hj2; lia|discriminate].
Qed.

Lemma replaceFrom_edge_interior :
  forall rest prev,
    prev <> [] ->
    replaceFrom false edgeDashesRegex [] prev rest 0
    = stripTrailing (cls_is DASH) rest.
Proof.
  induction rest as [|c t IH]; intros prev Hprev.
  - cbn [replaceFrom]. rewrite matchAt_edge_interior by assumption.
    reflexivity.
  - cbn [replaceFrom stripTrailing].
    rewrite matchAt_edge_interior by assumption.
    cbn [truthy]. rewrite andb_true_r.
    destruct (forallb (cls_is DASH) (c :: t)) eqn:Hall.
    + rewrite matchLength_after by lia. cbn [length app].
      rewrite replaceFrom_skip by lia.
      rewrite skipn_all. cbn [replaceFrom].
      rewrite matchAt_edge_interior
        by (destruct (rev (firstn (length t) t) ++ c :: prev) eqn:E;
            [apply app_eq_nil in E; destruct E; discriminate|discriminate]).
      reflexivity.
    + f_equal. apply IH. discriminate.
Qed.

(** [/^-+|-+$/g] removes the dashes the text begins with and those it
    ends with. *)
Lemma replaceAll_edge (v : jsstring) :
  replaceAll edgeDashesRegex [] v
  = stripTrailing (cls_is DASH) (dropRun (cls_is DASH) v).
Proof.
  unfold replaceAll.
  assert (Hat : matchAt false edgeDashesRegex [] v
                = match runLength (cls_is DASH) v with
                  | O => None
                  | S _ => Some (after (runLength (cls_is DASH) v) [] v [])
                  end).
  { unfold matchAt, edgeDashesRegex, RPlus.
    rewrite rmatch_alt, !rmatch_seq, rmatch_bol_single. cbn [m_prev].
    rewrite !rmatch_rep_char. cbn [m_prev m_rest m_caps].
    rewrite greedy_plus_accept.
    destruct (runLength (cls_is DASH) v) eqn:Hn; [|reflexivity].
    apply greedy_none. intros j Hj. lia. }
  destruct v as [|c t]; [cbn [replaceFrom]; rewrite Hat; reflexivity|].
  cbn [replaceFrom]. rewrite Hat. cbn [runLength dropRun].
  destruct (cls_is DASH c) eqn:Hc.
  - rewrite matchLength_after
      by (cbn [length]; pose proof (runLength_le (cls_is DASH) t); lia).
    cbn [app]. rewrite replaceFrom_skip by apply runLength_le.
    rewrite skipn_runLength. apply replaceFrom_edge_interior.
    destruct (rev (firstn (runLength (cls_is DASH) t) t) ++ [c]) eqn:E;
      [apply app_eq_nil in E; destruct E; discriminate|discriminate].
  - cbn [stripTrailing forallb]. rewrite Hc. cbn [andb]. f_equal.
    apply replaceFrom_edge_interior. discriminate.
Qed.

(* ------------------------------------------------------------------ *)
(** ** The shape of a heading id *)

Lemma stripTrailing_nil (p : code_unit -> bool) s :
  stripTrailing p s = [] <-> forallb p s = true.
Proof.
  destruct s as [|c t]; cbn [stripTrailing]; [cbn; tauto|].
  destruct (forallb p (c :: t)); split; intros H;
    try reflexivity; discriminate.
Qed.

Lemma stripTrailing_last (p : code_unit -> bool) d :
  forall s, stripTrailing p s = [] \/ p (last (stripTrailing p s) d) = false.
Proof.
  induction s as [|c t IH]; [left; reflexivity|].
  cbn [stripTrailing]. destruct (forallb p (c :: t)) eqn:Hall;
    [left; reflexivity|right].
  destruct (stripTrailing p t) as [|c2 t2] eqn:Et.
  - apply stripTrailing_nil in Et. cbn [forallb] in Hall.
    rewrite Et, andb_true_r in Hall. exact Hall.
  - destruct IH as [IH|IH]; [discriminate|exact IH].
Qed.

Lemma stripTrailing_prefix (p : code_unit -> bool) :
  forall s, exists w, s = stripTrailing p s ++ w.
Proof.
  induction s as [|c t [w Hw]]; [exists []; reflexivity|].
  cbn [stripTrailing]. destruct (forallb p (c :: t)).
  - exists (c :: t). reflexivity.
  - exists w. cbn. f_equal. exact Hw.
Qed.

Lemma dropRun_suffix (p : code_unit -> bool) s :
  exists w, s = w ++ dropRun p s.
Proof.
  exists (takeRun p s). symmetry. apply takeRun_dropRun.
Qed.

Lemma noDoubleDash_tail c s :
  noDoubleDash (c :: s) = true -> noDoubleDash s = true.
Proof. cbn. intros H. apply andb_true_iff in H. apply H. Qed.

Lemma noDoubleDash_suffix :
  forall w s, noDoubleDash (w ++ s) = true -> noDoubleDash s = true.
Proof.
  induction w as [|a w IH]; intros s H; [exact H|].
  apply IH. apply (noDoubleDash_tail a). exact H.
Qed.

Lemma noDoubleDash_prefix :
  forall s w, noDoubleDash (s ++ w) = true -> noDoubleDash s = true.
Proof.
  induction s as [|c t IH]; intros w H; [reflexivity|].
  cbn [app noDoubleDash] in *. apply andb_true_iff in H.
  destruct H as [Hc Ht]. rewrite (IH w Ht), andb_true_r.
  destruct t as [|c2 t2]; [|exact Hc].
  cbn [hd]. change (0 =? DASH)%N with false. rewrite andb_false_r.
  reflexivity.
Qed.

(** Collapsing the runs of a class that holds the dash into single
    dashes leaves no two dashes in a row. *)
Lemma collapseFrom_noDoubleDash (p : code_unit -> bool) :
  p DASH = true ->
  forall s b,
    noDoubleDash (collapseFrom p [DASH] b s) = true
    /\ (b = true -> hd 0%N (collapseFrom p [DASH] b s) <> DASH).
Proof.
  intros Hp. induction s as [|c t IH]; intros b.
  - split; [reflexivity|]. intros _. cbn. discriminate.
  - cbn [collapseFrom]. destruct (p c) eqn:Hc.
    + destruct (IH true) as [Hn Hh]. destruct b; cbn [app].
      * split; [exact Hn|]. intros _. apply Hh. reflexivity.
      * split; [|discriminate]. cbn [noDoubleDash]. rewrite Hn, andb_true_r.
        specialize (Hh eq_refl). apply N.eqb_neq in Hh. rewrite Hh.
        rewrite andb_false_r. reflexivity.
    + destruct (IH false) as [Hn _].
      assert (Hne : (c =? DASH)%N = false).
      { apply N.eqb_neq. intros ->. rewrite Hp in Hc. discriminate. }
      split.
      * cbn [noDoubleDash]. rewrite Hne, Hn. reflexivity.
      * intros _. cbn [hd]. apply N.eqb_neq. exact Hne.
Qed.

Lemma forallb_app_l {A} (f : A -> bool) l1 l2 :
  forallb f (l1 ++ l2) = true -> forallb f l1 = true.
Proof. rewrite forallb_app. intros H. apply andb_true_iff in H. apply H. Qed.

Lemma forallb_app_r {A} (f : A -> bool) l1 l2 :
  forallb f (l1 ++ l2) = true -> forallb f l2 = true.
Proof. rewrite forallb_app. intros H. apply andb_true_iff in H. apply H. Qed.

(** The runs of non-word units of any string collapsed into dashes, then
    the dashes at both ends removed: a well-formed id. *)
Lemma stripped_collapse_well_formed (lowered : jsstring) :
  wellFormedId
    (stripTrailing (cls_is DASH)
       (dropRun (cls_is DASH)
          (collapseFrom cls_not_word (lit "-") false lowered))).
Proof.
  set (v := collapseFrom cls_not_word (lit "-") false lowered).
  assert (Hchars : forallb (fun c => cls_word c || (c =? DASH)%N) v = true).
  { apply collapseFrom_forallb; [reflexivity|].
    apply forallb_forall. intros c _. unfold cls_not_word.
    destruct (cls_word c); reflexivity. }
  assert (Hnd : noDoubleDash v = true).
  { apply (collapseFrom_noDoubleDash cls_not_word eq_refl). }
  destruct (dropRun_suffix (cls_is DASH) v) as [w1 Hw1].
  destruct (stripTrailing_prefix (cls_is DASH) (dropRun (cls_is DASH) v))
    as [w2 Hw2].
  set (u := dropRun (cls_is DASH) v) in *.
  set (r := stripTrailing (cls_is DASH) u) in *.
  assert (Hu : forallb (fun c => cls_word c || (c =? DASH)%N) u = true).
  { rewrite Hw1 in Hchars. apply (forallb_app_r _ _ _ Hchars). }
  assert (Hund : noDoubleDash u = true).
  { rewrite Hw1 in Hnd. apply (noDoubleDash_suffix _ _ Hnd). }
  repeat split.
  - rewrite Hw2 in Hu. apply (forallb_app_l _ _ _ Hu).
  - pose proof (dropRun_head (cls_is DASH) v) as Hh. fold u in Hh.
    destruct r as [|c r'] eqn:Er; [cbn; discriminate|].
    destruct u as [|c' u']; [discriminate|]. cbn [app] in Hw2.
    injection Hw2 as -> _. cbn [hd]. unfold cls_is in Hh.
    apply N.eqb_neq. exact Hh.
  - destruct (stripTrailing_last (cls_is DASH) 0%N u) as [H|H]; fold r in H.
    + rewrite H. cbn. discriminate.
    + unfold cls_is in H. apply N.eqb_neq. exact H.
  - rewrite Hw2 in Hund. apply (noDoubleDash_prefix _ _ Hund).
Qed.

(** X4. Whatever the heading text, its id is made of word characters
    ([[A-Za-z0-9_]]) and dashes only, neither begins nor ends with a
    dash, and holds no two dashes in a row. *)
Theorem headingId_well_formed (unicodeLower : jsstring -> jsstring)
  (text : jsstring) :
  wellFormedId (headingId unicodeLower text).
Proof.
  unfold headingId, notWordRegex.
  rewrite replaceAll_plus, replaceAll_edge. unfold collapseRuns.
  apply stripped_collapse_well_formed.
Qed.

(* ------------------------------------------------------------------ *)
(** ** The fields of a search document *)

Lemma trimStart_dropRun s : trimStart s = dropRun cls_space s.
Proof.
  induction s as [|c t IH]; cbn; [reflexivity|].
  destruct (cls_space c); [exact IH|reflexivity].
Qed.

(** [trim] keeps a stretch of the string. *)
Lemma trim_stretch s : exists w1 w2, s = w1 ++ trim s ++ w2.
Proof.
  unfold trim, trimEnd. rewrite !trimStart_dropRun.
  set (u := dropRun cls_space s).
  exists (takeRun cls_space s), (rev (takeRun cls_space (rev u))).
  rewrite <- rev_app_distr, takeRun_dropRun, rev_involutive.
  unfold u. symmetry. apply takeRun_dropRun.
Qed.

Lemma trim_trimmed s : trimmed (trim s).
Proof.
  unfold trimmed, trim, trimEnd. rewrite !trimStart_dropRun.
  set (u := dropRun cls_space s).
  set (x := dropRun cls_space (rev u)).
  assert (Hlast : cls_space (last (rev x) 0%N) = false).
  { pose proof (dropRun_head cls_space (rev u)) as Hh. fold x in Hh.
    destruct x as [|c x']; [reflexivity|].
    cbn [rev]. rewrite last_last. exact Hh. }
  split; [|exact Hlast].
  destruct (rev x) as [|c r] eqn:Er; [reflexivity|]. cbn [hd].
  assert (Hu : u = rev x ++ rev (takeRun cls_space (rev u))).
  { rewrite <- rev_app_distr. unfold x. rewrite takeRun_dropRun.
    symmetry. apply rev_involutive. }
  rewrite Er in Hu. pose proof (dropRun_head cls_space s) as Hh.
  fold u in Hh. rewrite Hu in Hh. exact Hh.
Qed.

Lemma forallb_stretch {A} (f : A -> bool) w1 s w2 :
  forallb f (w1 ++ s ++ w2) = true -> forallb f s = true.
Proof.
  intros H. apply forallb_app_r in H. apply forallb_app_l in H. exact H.
Qed.

(** The last piece of a split: it ends the string, holds no separator,
    and is empty only when the string is empty or ends with the
    separator; a string without separator is its own single piece. *)
Lemma split_last (sep : code_unit) :
  forall s,
    split sep s <> []
    /\ (forall piece, split sep s = [piece] -> piece = s)
    /\ (exists pre, s = pre ++ last (split sep s) [])
    /\ noUnit sep (last (split sep s) []) = true
    /\ (last (split sep s) [] = [] -> s = [] \/ last s 0%N = sep)
    /\ (noUnit sep s = true -> split sep s = [s]).
Proof.
  induction s as [|c t (Hne & Hwhole & [pre Hpre] & Hno & Hempty & Hone)].
  - cbn. repeat split; try discriminate; try reflexivity.
    + intros piece H. injection H as <-. reflexivity.
    + exists []. reflexivity.
    + intros _. left. reflexivity.
  - cbn [split]. destruct (c =? sep)%N eqn:Hc.
    + apply N.eqb_eq in Hc. subst c.
      assert (Hl : last ([] :: split sep t) [] = last (split sep t) []).
      { destruct (split sep t); [contradiction Hne; reflexivity|reflexivity]. }
      rewrite Hl. repeat split; try discriminate.
      * intros piece H. injection H as _ H. contradiction.
      * exists (sep :: pre). cbn. f_equal. exact Hpre.
      * exact Hno.
      * intros E. right. destruct (Hempty E) as [->|H]; [reflexivity|].
        destruct t; [reflexivity|exact H].
      * cbn. rewrite N.eqb_refl. discriminate.
    + destruct (split sep t) as [|piece rest] eqn:Es;
        [contradiction Hne; reflexivity|].
      destruct rest as [|p2 rest'].
      * pose proof (Hwhole piece eq_refl) as Hp. subst piece.
        cbn [last] in *. repeat split; try discriminate.
        -- intros piece H. injection H as <-. reflexivity.
        -- exists []. reflexivity.
        -- cbn [noUnit forallb]. rewrite Hc. exact Hno.
      * change (last ((c :: piece) :: p2 :: rest') [])
          with (last (piece :: p2 :: rest') []).
        repeat split; try discriminate.
        -- exists (c :: pre). cbn. f_equal. exact Hpre.
        -- exact Hno.
        -- intros E. right.
           destruct (Hempty E) as [->|H]; [discriminate Es|].
           destruct t; [discriminate Es|exact H].
        -- cbn [noUnit forallb]. rewrite Hc. cbn [negb andb].
           intros H. pose proof (Hone H) as E1. discriminate E1.
Qed.

(** [relativePath.split('/').pop() || relativePath] *)
Lemma lastSegmentOr_spec (relativePath : jsstring) :
  (exists pre, relativePath = pre ++ lastSegmentOr relativePath)
  /\ (noUnit SLASH (lastSegmentOr relativePath) = true
      \/ (lastSegmentOr relativePath = relativePath
          /\ last relativePath 0%N = SLASH))
  /\ (noUnit SLASH relativePath = true ->
      lastSegmentOr relativePath = relativePath)
  /\ (relativePath <> [] -> lastSegmentOr relativePath <> []).
Proof.
  destruct (split_last SLASH relativePath)
    as (_ & _ & [pre Hpre] & Hno & Hempty & Hone).
  unfold lastSegmentOr.
  destruct (last (split SLASH relativePath) []) as [|c l] eqn:El; cbn [truthy].
  - repeat split.
    + exists []. reflexivity.
    + destruct (Hempty eq_refl) as [->|H]; [left; reflexivity|].
      right. split; [reflexivity|exact H].
    + intros H. exact H.
  - repeat split.
    + exists pre. exact Hpre.
    + left. exact Hno.
    + intros H. rewrite (Hone H) in El. cbn in El. symmetry. exact El.
    + intros _. discriminate.
Qed.

Section Documents.
Variable unicodeLower : jsstring -> jsstring.
Variable path_join : list jsstring -> jsstring.
Variable path_relative : jsstring -> jsstring -> jsstring.
Variable path_dirname : jsstring -> jsstring.
Variable cwd : jsstring.
Variable matter : jsstring -> result (jsstring * FrontMatter).
Variable remarkParse : jsstring -> result mdast.
Variable remarkProcess : jsstring -> result jsstring.

Local Abbreviation extract :=
  (extractTextFromMDX unicodeLower path_join path_relative path_dirname cwd
     matter remarkParse remarkProcess).

(** What a successful extraction returns. *)
Lemma extract_ok (env : Environment) (filePath : jsstring)
  (doc : SearchDocument) :
  extract env filePath = Ok doc ->
  exists fileContent body data plainText hs,
    readFileSync env filePath = Ok fileContent
    /\ matter fileContent = Ok (body, data)
    /\ remarkProcess body = Ok plainText
    /\ extractHeadings unicodeLower remarkParse body = Ok hs
    /\ doc = (let relativePath :=
                path_relative (DOCS_ROOT path_join cwd)
                  (path_dirname filePath) in
              {| id := relativePath;
                 title := match fm_title data with
                          | Some t => if truthy t then t else relativePath
                          | None => relativePath
                          end;
                 folderName := lastSegmentOr relativePath;
                 content := trim (replaceAll newlinesRegex (lit " ")
                                    plainText);
                 url := lit "/docs/" ++ relativePath;
                 headings := hs |}).
Proof.
  unfold extractTextFromMDX.
  destruct (readFileSync env filePath) as [fileContent|] eqn:E1;
    [|discriminate].
  cbn [bind]. destruct (matter fileContent) as [[body data]|] eqn:E2;
    [|discriminate].
  cbn [bind fst snd]. destruct (remarkProcess body) as [plainText|] eqn:E3;
    [|discriminate].
  cbn [bind]. destruct (extractHeadings unicodeLower remarkParse body)
    as [hs|] eqn:E4; [|discriminate].
  cbn [bind]. intros E. injection E as <-.
  exists fileContent, body, data, plainText, hs.
  repeat split; assumption.
Qed.

(** X5. The [content] of every document extracted holds no line feed
    and neither begins nor ends with white space. *)
Theorem document_content_is_one_trimmed_line (env : Environment)
  (filePath : jsstring) (doc : SearchDocument) :
  extract env filePath = Ok doc ->
  noUnit LF (content doc) = true /\ trimmed (content doc).
Proof.
  intros H. destruct (extract_ok env filePath doc H)
    as (fc & body & data & plain & hs & _ & _ & _ & _ & ->).
  cbn [content]. split; [|apply trim_trimmed].
  destruct (trim_stretch (replaceAll newlinesRegex (lit " ") plain))
    as (w1 & w2 & Hw).
  apply (forallb_stretch _ w1 _ w2). rewrite <- Hw.
  unfold newlinesRegex. rewrite replaceAll_plus. unfold collapseRuns.
  apply collapseFrom_forallb; [reflexivity|].
  apply forallb_forall. intros c _. unfold cls_is.
  destruct (c =? LF)%N; reflexivity.
Qed.

(** X6. Every document extracted has as [id] the directory of its file
    relative to the content root and as [url] that id after [/docs/].
    Its [folderName] ends the id; it holds no slash, unless the id ends
    with a slash, in which case it is the whole id; it is the id itself
    when the id holds no slash. When the id is not empty, neither the
    [folderName] nor the [title] is. *)
Theorem document_fields_from_directory (env : Environment)
  (filePath : jsstring) (doc : SearchDocument) :
  extract env filePath = Ok doc ->
  id doc = path_relative (DOCS_ROOT path_join cwd) (path_dirname filePath)
  /\ url doc = lit "/docs/" ++ id doc
  /\ (exists pre, id doc = pre ++ folderName doc)
  /\ (noUnit SLASH (folderName doc) = true
      \/ (folderName doc = id doc /\ last (id doc) 0%N = SLASH))
  /\ (noUnit SLASH (id doc) = true -> folderName doc = id doc)
  /\ (id doc <> [] -> folderName doc <> [] /\ title doc <> []).
Proof.
  intros H. destruct (extract_ok env filePath doc H)
    as (fc & body & data & plain & hs & _ & _ & _ & _ & ->).
  cbn [id url folderName title].
  set (r := path_relative (DOCS_ROOT path_join cwd) (path_dirname filePath)).
  destruct (lastSegmentOr_spec r) as (Hpre & Hslash & Hwhole & Hne).
  repeat split; try assumption.
  - apply Hne. assumption.
  - destruct (fm_title data) as [t|]; [|assumption].
    destruct t; cbn [truthy]; [assumption|discriminate].
Qed.

End Documents.

Lemma document_content_is_one_trimmed_line_witness :
  noUnit LF (lit "hello") = true /\ trimmed (lit "hello").
Proof.
  apply (document_content_is_one_trimmed_line (fun s => s) demoJoin
           demoRelative demoDirname (lit "/site") demoMatter demoParse
           demoProcess soundEnvironment
           (lit "/site/contents/docs/a/index.mdx")
           {| id := lit "a"; title := lit "a"; folderName := lit "a";
              content := lit "hello"; url := lit "/docs/a";
              headings := [] |}).
  reflexivity.
Defined.

Lemma document_fields_from_directory_witness :
  exists doc,
    extractTextFromMDX (fun s => s) demoJoin demoRelative demoDirname
      (lit "/site") demoMatter demoParse demoProcess soundEnvironment
      (lit "/site/contents/docs/a/index.mdx") = Ok doc
    /\ url doc = lit "/docs/" ++ id doc
    /\ folderName doc = id doc.
Proof.
  eexists. split; [reflexivity|].
  destruct (document_fields_from_directory (fun s => s) demoJoin
              demoRelative demoDirname (lit "/site") demoMatter demoParse
              demoProcess soundEnvironment
              (lit "/site/contents/docs/a/index.mdx") _ eq_refl)
    as (_ & Hurl & _ & _ & Hwhole & _).
  split; [exact Hurl|]. apply Hwhole. reflexivity.
Defined.

(* ------------------------------------------------------------------ *)
(** ** A fulfilled batch *)

(** [Promise.all] is fulfilled exactly when every promise is, with the
    values in the order of the promises. *)
Lemma promiseAll_ok {A} (ps : list (result A)) (xs : list A) :
  promiseAll ps = Ok xs <-> ps = map Ok xs.
Proof.
  revert xs. induction ps as [|p ps IH]; intros xs.
  - cbn. split; intros H.
    + injection H as <-. reflexivity.
    + destruct xs; [reflexivity|discriminate H].
  - cbn [promiseAll]. destruct p as [a|e]; cbn [bind].
    + destruct (promiseAll ps) as [rest|e'] eqn:E; cbn [bind].
      * split; intros H.
        -- injection H as <-. cbn. f_equal. apply IH. reflexivity.
        -- destruct xs as [|x xs']; [discriminate H|].
           cbn in H. injection H as -> Hps.
           apply IH in Hps. injection Hps as ->. reflexivity.
      * split; intros H; [discriminate H|].
        destruct xs as [|x xs']; [discriminate H|].
        cbn in H. injection H as _ Hps. apply IH in Hps. discriminate Hps.
    + split; intros H; [discriminate H|].
      destruct xs; discriminate H.
Qed.

Section Batch.
Variable unicodeLower : jsstring -> jsstring.
Variable path_join : list jsstring -> jsstring.
Variable path_relative : jsstring -> jsstring -> jsstring.
Variable path_dirname : jsstring -> jsstring.
Variable cwd : jsstring.
Variable matter : jsstring -> result (jsstring * FrontMatter).
Variable remarkParse : jsstring -> result mdast.
Variable remarkProcess : jsstring -> result jsstring.
Variable JSON_stringify : list SearchDocument -> jsstring.

Local Abbreviation extract :=
  (extractTextFromMDX unicodeLower path_join path_relative path_dirname cwd
     matter remarkParse remarkProcess).
Local Abbreviation discovered env :=
  (getAllIndexMDXFiles path_join (DOCS_ROOT path_join cwd) (docsTree env)).
Local Abbreviation generate :=
  (generateSearchIndex unicodeLower path_join path_relative path_dirname cwd
     matter remarkParse remarkProcess JSON_stringify).

(** X7. When the promise of [generateSearchIndex] is fulfilled, every
    discovered file was extracted: the index has one document per file,
    in discovery order, each with its file's relative directory as [id];
    the output file holds the serialized index, whatever it held before,
    and the confirmation line, and nothing else, was printed. *)
Theorem fulfilled_index_follows_discovery (env : Environment)
  (p p' : Process) :
  generate env p = (p', Ok tt) ->
  exists index,
    map (extract env) (discovered env) = map Ok index
    /\ length index = length (discovered env)
    /\ map id index
       = map (fun file => path_relative (DOCS_ROOT path_join cwd)
                            (path_dirname file))
           (discovered env)
    /\ artifact p' = Some (JSON_stringify index)
    /\ stdout p' = stdout p ++ [confirmation path_join cwd]
    /\ stderr p' = stderr p.
Proof.
  unfold generateSearchIndex.
  destruct (promiseAll (map (extract env) (discovered env)))
    as [index|e] eqn:Hall; [|intros H; discriminate H].
  unfold writeOutput. destruct (outputWritable env);
    [|intros H; discriminate H].
  intros H. injection H as <-. apply promiseAll_ok in Hall.
  exists index. split; [exact Hall|].
  assert (Hlen : length index = length (discovered env)).
  { rewrite <- (length_map Ok index), <- Hall, length_map. reflexivity. }
  split; [exact Hlen|]. split; [|repeat split].
  revert Hall. generalize (discovered env) as files. clear Hlen.
  induction index as [|doc index IH]; intros files Hall.
  - destruct files; [reflexivity|discriminate Hall].
  - destruct files as [|file files]; [discriminate Hall|].
    cbn [map] in Hall |- *. injection Hall as Hdoc Hrest.
    f_equal; [|apply IH; exact Hrest].
    destruct (extract_ok unicodeLower path_join path_relative path_dirname
                cwd matter remarkParse remarkProcess env file doc Hdoc)
      as (fc & body & data & plain & hs & _ & _ & _ & _ & ->).
    reflexivity.
Qed.

End Batch.

Lemma fulfilled_index_follows_discovery_witness :
  exists index,
    map id index = [lit "a"]
    /\ artifact
         (fst (generateSearchIndex (fun s => s) demoJoin demoRelative
                 demoDirname (lit "/site") demoMatter demoParse demoProcess
                 demoStringify soundEnvironment staleProcess))
       = Some (demoStringify index).
Proof.
  destruct (fulfilled_index_follows_discovery (fun s => s) demoJoin
              demoRelative demoDirname (lit "/site") demoMatter demoParse
              demoProcess demoStringify soundEnvironment staleProcess _
              eq_refl) as (index & _ & _ & Hid & Hart & _).
  exists index. split; [exact Hid|exact Hart].
Defined.

(* ------------------------------------------------------------------ *)
(** ** The page-render path *)

Lemma endsWith_app (a b suffix : jsstring) :
  endsWith b suffix = true -> endsWith (a ++ b) suffix = true.
Proof.
  unfold endsWith. intros H. apply andb_true_iff in H.
  destruct H as [Hlen Heq]. apply Nat.leb_le in Hlen.
  apply andb_true_iff. split.
  - apply Nat.leb_le. rewrite length_app. lia.
  - rewrite skipn_app, length_app.
    replace (length a + length b - length suffix - length a)
      with (length b - length suffix) by lia.
    rewrite (skipn_all2 a) by lia. exact Heq.
Qed.

Section Resolver.
Variable path_join : list jsstring -> jsstring.
Variable cwd : jsstring.

Lemma getDocsContentPath_ok (fs : FileSystem) (slug : jsstring) :
  exists contentPath,
    getDocsContentPath path_join cwd fs slug = Ok contentPath.
Proof.
  unfold getDocsContentPath.
  destruct (endsWith slug (lit ".mdx")); [eexists; reflexivity|].
  destruct (stat fs _); eexists; reflexivity.
Qed.

(** X8. Whatever the slug and the file system, the resolver returns the
    join of the content root with a relative part that begins with the
    slug and ends with [.mdx]. *)
Theorem getDocsContentPath_names_an_mdx_file (fs : FileSystem)
  (slug : jsstring) :
  exists relative,
    getDocsContentPath path_join cwd fs slug
    = Ok (underRoot path_join cwd relative)
    /\ endsWith relative (lit ".mdx") = true
    /\ exists rest, relative = slug ++ rest.
Proof.
  unfold getDocsContentPath, underRoot.
  destruct (endsWith slug (lit ".mdx")) eqn:Hs.
  - exists slug. repeat split; [exact Hs|]. exists []. symmetry.
    apply app_nil_r.
  - destruct (stat fs _).
    + exists (slug ++ lit ".mdx"). repeat split.
      * apply endsWith_app. reflexivity.
      * exists (lit ".mdx"). reflexivity.
    + exists (slug ++ lit "/index.mdx"). repeat split.
      * apply endsWith_app. reflexivity.
      * exists (lit "/index.mdx"). reflexivity.
Qed.

Variable unicodeLower : jsstring -> jsstring.

Lemma extractToc_ok (rawMdx : jsstring) :
  exists entries, extractToc unicodeLower rawMdx = Some (Ok entries).
Proof.
  destruct (execLoop_total rawMdx [] 0) as (ms & Hms & Hall).
  destruct (tocEntries_total unicodeLower ms Hall) as (es & Hes & _).
  exists es. unfold extractToc, execLoop. rewrite Hms. cbn [option_map].
  rewrite Hes. reflexivity.
Qed.

(** X9. [getDocsTocs] always returns: it is rejected exactly when
    reading the resolved file fails, with the error of the read;
    otherwise it is fulfilled with the entries of the text read. The
    content of a file cannot make it fail. *)
Theorem getDocsTocs_fails_only_on_read (fs : FileSystem) (slug : jsstring) :
  exists contentPath,
    getDocsContentPath path_join cwd fs slug = Ok contentPath
    /\ match readFile fs contentPath with
       | Throw e =>
           getDocsTocs unicodeLower path_join cwd fs slug = Some (Throw e)
       | Ok rawMdx =>
           exists entries,
             getDocsTocs unicodeLower path_join cwd fs slug
             = Some (Ok entries)
             /\ extractToc unicodeLower rawMdx = Some (Ok entries)
       end.
Proof.
  destruct (getDocsContentPath_ok fs slug) as [contentPath Hpath].
  exists contentPath. split; [exact Hpath|].
  unfold getDocsTocs. rewrite Hpath.
  destruct (readFile fs contentPath) as [rawMdx|e]; [|reflexivity].
  destruct (extractToc_ok rawMdx) as [es Hes].
  exists es. split; exact Hes.
Qed.

Variable Compiled : Type.
Variable compileMDX : jsstring -> result Compiled.

(** X10. When [getDocsForSlug] is fulfilled it has logged nothing, and
    [getDocsTocs] on the same slug is fulfilled too. When it is rejected
    it has logged one line, naming the slug, with the error it rejects
    with, and that error is the one of reading the resolved file or of
    compiling its content. *)
Theorem getDocsForSlug_logs_and_rethrows (fs : FileSystem) (slug : jsstring)
  (console : ErrorLog) :
  (forall compiled,
     snd (getDocsForSlug compileMDX path_join cwd fs slug console)
     = Ok compiled ->
     fst (getDocsForSlug compileMDX path_join cwd fs slug console) = console
     /\ exists entries,
          getDocsTocs unicodeLower path_join cwd fs slug = Some (Ok entries))
  /\ (forall err,
        snd (getDocsForSlug compileMDX path_join cwd fs slug console)
        = Throw err ->
        fst (getDocsForSlug compileMDX path_join cwd fs slug console)
        = console ++ [(fetchErrorMessage slug, err)]
        /\ exists contentPath,
             getDocsContentPath path_join cwd fs slug = Ok contentPath
             /\ (readFile fs contentPath = Throw err
                 \/ exists rawMdx, readFile fs contentPath = Ok rawMdx
                                   /\ compileMDX rawMdx = Throw err)).
Proof.
  destruct (getDocsContentPath_ok fs slug) as [contentPath Hpath].
  unfold getDocsForSlug, parseMdx, getDocsTocs. rewrite Hpath. cbn [bind].
  destruct (readFile fs contentPath) as [rawMdx|e] eqn:Hread; cbn [bind].
  - destruct (extractToc_ok rawMdx) as [entries Htoc].
    destruct (compileMDX rawMdx) as [compiled|e] eqn:Hc; cbn [fst snd].
    + split; [|intros err H; discriminate H].
      intros c _. split; [reflexivity|]. exists entries. exact Htoc.
    + split; [intros c H; discriminate H|].
      intros err H. injection H as <-. split; [reflexivity|].
      exists contentPath. split; [reflexivity|]. right.
      exists rawMdx. rewrite Hread. split; [reflexivity|exact Hc].
  - cbn [fst snd]. split; [intros c H; discriminate H|].
    intros err H. injection H as <-. split; [reflexivity|].
    exists contentPath. split; [reflexivity|]. left. exact Hread.
Qed.

End Resolver.

Lemma getDocsForSlug_logs_and_rethrows_witness :
  getDocsForSlug (fun raw => Ok raw) demoJoin (lit "/site") demoFileSystem
    (lit "guide") []
  = ([(fetchErrorMessage (lit "guide"), Error (lit "ENOENT"))],
     Throw (Error (lit "ENOENT")))
  /\ fst (getDocsForSlug (fun raw => Ok raw) demoJoin (lit "/site")
            demoFileSystem (lit "guide") [])
     = [] ++ [(fetchErrorMessage (lit "guide"), Error (lit "ENOENT"))].
Proof.
  split; [reflexivity|].
  destruct (getDocsForSlug_logs_and_rethrows demoJoin (lit "/site")
              (fun s => s) jsstring (fun raw => Ok raw) demoFileSystem
              (lit "guide") []) as [_ Hthrow].
  apply (Hthrow (Error (lit "ENOENT")) eq_refl).
Defined.

(* ------------------------------------------------------------------ *)
(** ** Navigation both ways, and the headings of a parent *)

Section Navigation.
Variable Route : Type.
Variable route_href : Route -> jsstring.

Lemma NoDup_map_nth_error (l : list Route) i j a b :
  NoDup (map route_href l) ->
  nth_error l i = Some a -> nth_error l j = Some b ->
  route_href a = route_href b -> i = j.
Proof.
  intros Hnd Hi Hj Hab.
  apply (proj1 (NoDup_nth_error (map route_href l)) Hnd).
  - rewrite length_map. apply nth_error_Some. rewrite Hi. discriminate.
  - rewrite !nth_error_map, Hi, Hj. cbn. f_equal. exact Hab.
Qed.

(** With distinct hrefs the lookup finds the route where it stands. *)
Lemma getPreviousNext_distinct (page_routes : list Route) (path : jsstring)
  (i : nat) (r : Route) :
  NoDup (map route_href page_routes) ->
  nth_error page_routes i = Some r ->
  matchesPath route_href path r ->
  getPreviousNext route_href page_routes path
  = {| prev := match i with O => None | S i' => nth_error page_routes i' end;
       next := nth_error page_routes (S i) |}.
Proof.
  intros Hnd Hi Hr. apply (getPreviousNext_at _ _ _ _ i r Hi Hr).
  intros j r' Hj Hr' Hm. unfold matchesPath in *.
  assert (j = i); [|lia].
  apply (NoDup_map_nth_error page_routes j i r' r Hnd Hr' Hi).
  rewrite Hm, Hr. reflexivity.
Qed.

(** X11. In a route table with distinct hrefs, for routes [a] and [b] of
    the table: [b] is the [next] of [a]'s path exactly when [a] is the
    [prev] of [b]'s path. *)
Theorem previous_and_next_are_inverse (page_routes : list Route)
  (pathA pathB : jsstring) (a b : Route) :
  NoDup (map route_href page_routes) ->
  In a page_routes -> In b page_routes ->
  matchesPath route_href pathA a ->
  matchesPath route_href pathB b ->
  (next (getPreviousNext route_href page_routes pathA) = Some b
   <-> prev (getPreviousNext route_href page_routes pathB) = Some a).
Proof.
  intros Hnd Ha Hb HpA HpB.
  apply In_nth_error in Ha, Hb. destruct Ha as [i Hi]. destruct Hb as [j Hj].
  rewrite (getPreviousNext_distinct page_routes pathA i a Hnd Hi HpA).
  rewrite (getPreviousNext_distinct page_routes pathB j b Hnd Hj HpB).
  cbn [prev next]. split; intros H.
  - assert (j = S i).
    { apply (NoDup_map_nth_error page_routes j (S i) b b Hnd Hj H).
      reflexivity. }
    subst j. exact Hi.
  - destruct j as [|j']; [discriminate H|].
    assert (j' = i).
    { apply (NoDup_map_nth_error page_routes j' i a a Hnd H Hi).
      reflexivity. }
    subst j'. exact Hj.
Qed.

End Navigation.

Lemma previous_and_next_are_inverse_witness :
  next (getPreviousNext (fun r : jsstring => r) demoRoutes (lit "docs/a"))
  = Some (lit "/docs/b")
  /\ prev (getPreviousNext (fun r : jsstring => r) demoRoutes (lit "docs/b"))
     = Some (lit "/docs/a").
Proof.
  split; [reflexivity|].
  apply (previous_and_next_are_inverse jsstring (fun r => r) demoRoutes
           (lit "docs/a") (lit "docs/b") (lit "/docs/a") (lit "/docs/b")).
  - repeat constructor; cbn; intuition discriminate.
  - left. reflexivity.
  - right. left. reflexivity.
  - reflexivity.
  - reflexivity.
  - reflexivity.
Defined.

Section Headings.
Variable unicodeLower : jsstring -> jsstring.

Lemma headingsOfTree_node (type : jsstring) (value : option jsstring)
  (children : list mdast) :
  headingsOfTree unicodeLower (MdNode type value children)
  = (if isHeading (MdNode type value children)
     then headingEntry unicodeLower (MdNode type value children)
     else [])
    ++ flat_map (headingsOfTree unicodeLower) children.
Proof.
  unfold headingsOfTree. rewrite visit_preorder. cbn [app preorder filter].
  assert (Hch : flat_map (headingEntry unicodeLower)
                  (filter isHeading (flat_map preorder children))
                = flat_map (fun c => visit isHeading
                                       (headingVisitor unicodeLower) c [])
                    children).
  { induction children as [|c l IH]; [reflexivity|].
    cbn [flat_map]. rewrite filter_app, flat_map_app, IH, visit_preorder.
    reflexivity. }
  destruct (isHeading (MdNode type value children)).
  - cbn [flat_map]. rewrite Hch. reflexivity.
  - rewrite Hch. reflexivity.
Qed.

(** X12. The headings of a node are its own entry, when it is a heading
    that passes the visitor's test, followed by the headings of its
    children, child after child; so the headings of a parent whose
    children are [c1 ++ c2] are those of [c1] followed by those of [c2],
    and nothing is merged or dropped between them. *)
Theorem headings_compose (type : jsstring) (value : option jsstring) :
  (forall children,
     headingsOfTree unicodeLower (MdNode type value children)
     = (if isHeading (MdNode type value children)
        then headingEntry unicodeLower (MdNode type value children)
        else [])
       ++ flat_map (headingsOfTree unicodeLower) children)
  /\ (type <> lit "heading" ->
      forall c1 c2,
        headingsOfTree unicodeLower (MdNode type value (c1 ++ c2))
        = headingsOfTree unicodeLower (MdNode type value c1)
          ++ headingsOfTree unicodeLower (MdNode type value c2)).
Proof.
  split; [apply headingsOfTree_node|].
  intros Htype c1 c2. rewrite !headingsOfTree_node.
  assert (E : forall c, isHeading (MdNode type value c) = false).
  { intros c. unfold isHeading. cbn [md_type].
    apply jsstring_eqb_neq. exact Htype. }
  rewrite !E. cbn [app]. apply flat_map_app.
Qed.

End Headings.

Lemma headings_compose_witness :
  headingsOfTree (fun s => s)
    (mdParent (lit "root")
       ([mdHeading [mdText (lit "Foo")]] ++ [mdHeading [mdText (lit "Foo")]]))
  = [{| h_text := lit "Foo"; h_id := lit "foo" |};
     {| h_text := lit "Foo"; h_id := lit "foo" |}].
Proof.
  destruct (headings_compose (fun s => s) (lit "root") None) as [_ H].
  unfold mdParent. rewrite H by discriminate. reflexivity.
Defined.

(* ------------------------------------------------------------------ *)
(** ** The texts of the table of contents *)

Lemma headingMatchState_one_line prev rest y :
  headingMatchState prev rest = Some y -> textOnOneLine y.
Proof.
  unfold headingMatchState. set (n := runLength (cls_is HASH) rest).
  destruct ((2 <=? n) && (n <=? 4)); [|discriminate].
  destruct (skipn n rest) as [|c r]; [discriminate|].
  destruct (cls_space c); [|discriminate].
  destruct (runLength cls_dot r) as [|m] eqn:Hm; [discriminate|].
  intros H.
  assert (Hy : m_caps y = [(2, firstn (S m) r); (1, firstn n rest)])
    by (injection H as <-; reflexivity).
  unfold textOnOneLine. rewrite Hy. exists (firstn (S m) r).
  split; [reflexivity|].
  rewrite <- Hm, firstn_runLength. apply takeRun_forallb.
Qed.

(** What holds of every match of the heading pattern holds of every
    match the loop collects. *)
Lemma execLoop_matches (P : mstate -> Prop) :
  (forall prev rest y, headingMatchState prev rest = Some y -> P y) ->
  forall s prev skip ms,
    execLoopFrom true headingsRegex prev s skip = Some ms -> Forall P ms.
Proof.
  intros HP. induction s as [|c t IH]; intros prev skip ms.
  - destruct skip; cbn [execLoopFrom].
    + rewrite matchAt_heading.
      destruct (atLineStart prev);
        [destruct (headingMatchState prev []) eqn:E|].
      * cbn. discriminate.
      * intros H. injection H as <-. constructor.
      * intros H. injection H as <-. constructor.
    + intros H. injection H as <-. constructor.
  - destruct skip as [|k]; cbn [execLoopFrom]; [|apply IH].
    rewrite matchAt_heading.
    destruct (atLineStart prev); [|apply IH].
    destruct (headingMatchState prev (c :: t)) as [y|] eqn:Hy; [|apply IH].
    destruct (matchLength (c :: t) y) as [|n]; [discriminate|].
    destruct (execLoopFrom true headingsRegex (c :: prev) t n) as [ms'|] eqn:E;
      [|discriminate].
    cbn [option_map]. intros H. injection H as <-.
    constructor; [apply (HP _ _ _ Hy)|apply (IH _ _ _ E)].
Qed.

Section Toc.
Variable unicodeLower : jsstring -> jsstring.

Lemma tocEntries_texts :
  forall ms es,
    tocEntries unicodeLower ms = Ok es ->
    Forall textOnOneLine ms ->
    Forall (fun e => forallb cls_dot (text e) = true /\ trimmed (text e)) es.
Proof.
  induction ms as [|m ms IH]; intros es H Hall.
  - injection H as <-. constructor.
  - inversion Hall as [|? ? Hm Hms]; subst.
    cbn [tocEntries] in H. unfold tocEntry in H.
    destruct (capture 1 (m_caps m)) as [g1|]; [|discriminate H].
    destruct Hm as (g2 & Hg2 & Hdot). rewrite Hg2 in H. cbn [bind] in H.
    destruct (tocEntries unicodeLower ms) as [es'|]; [|discriminate H].
    cbn [bind] in H. injection H as <-.
    constructor; [|apply IH; [reflexivity|exact Hms]].
    cbn [text]. split; [|apply trim_trimmed].
    destruct (trim_stretch g2) as (w1 & w2 & Hw).
    apply (forallb_stretch _ w1 _ w2). rewrite <- Hw. exact Hdot.
Qed.

(** X13. Whatever the raw text, the text of every entry of its table of
    contents holds no line terminator and neither begins nor ends with
    white space. *)
Theorem toc_texts_are_trimmed_lines (rawMdx : jsstring)
  (entries : list TocEntry) :
  extractToc unicodeLower rawMdx = Some (Ok entries) ->
  Forall (fun e => forallb cls_dot (text e) = true /\ trimmed (text e))
    entries.
Proof.
  unfold extractToc, execLoop.
  destruct (execLoopFrom true headingsRegex [] rawMdx 0) as [ms|] eqn:Hms;
    [|discriminate].
  cbn [option_map]. intros H. injection H as H.
  apply (tocEntries_texts ms entries H).
  apply (execLoop_matches textOnOneLine headingMatchState_one_line _ _ _ _ Hms).
Qed.

End Toc.

Lemma toc_texts_are_trimmed_lines_witness :
  Forall (fun e => forallb cls_dot (text e) = true /\ trimmed (text e))
    [{| level := 3; text := lit "pnpm"; href := lit "#pnpm" |}].
Proof.
  apply (toc_texts_are_trimmed_lines (fun s => s)
           (lit "### pnpm  ")). reflexivity.
Defined.

(* ------------------------------------------------------------------ *)
(** ** Slugs and ids are fixed points *)

Lemma collapseFrom_none (p : code_unit -> bool) rep :
  forall s b, forallb (fun c => negb (p c)) s = true ->
              collapseFrom p rep b s = s.
Proof.
  induction s as [|c t IH]; intros b H; [reflexivity|].
  cbn [forallb] in H. apply andb_true_iff in H. destruct H as [Hc Ht].
  apply negb_true_iff in Hc. cbn [collapseFrom]. rewrite Hc, IH by assumption.
  reflexivity.
Qed.

Lemma map_id_in {A} (f : A -> A) l :
  (forall a, In a l -> f a = a) -> map f l = l.
Proof.
  induction l as [|a l IH]; intros H; [reflexivity|].
  cbn. rewrite H by (left; reflexivity). f_equal. apply IH.
  intros b Hb. apply H. right. exact Hb.
Qed.

(** Slug units are ASCII, not white space, and their own lowercase. *)
Lemma slug_unit_facts c :
  isAscii c = true ->
  implb (cls_word c || (c =? DASH)%N)
        (negb (cls_space c)
         && (implb (isSlugUnit c) ((asciiLower c =? c)%N))
         && (implb (negb (isUpperAZ c)) ((asciiLower c =? c)%N))
         && eqb (cls_not_word c) (c =? DASH)%N) = true.
Proof. revert c. apply ascii_check. vm_compute. reflexivity. Qed.

Lemma word_or_dash_ascii c :
  cls_word c || (c =? DASH)%N = true -> isAscii c = true.
Proof.
  unfold cls_word, isUpperAZ, isLowerAZ, isDigit, in_range, isAscii,
    UNDERSCORE, DASH.
  intros H.
  repeat (apply orb_true_iff in H; destruct H as [H|H]);
    try (apply andb_true_iff in H; destruct H as [H1 H2]);
    try apply N.leb_le in H1; try apply N.leb_le in H2;
    try apply N.eqb_eq in H;
    apply N.ltb_lt; lia.
Qed.

Lemma slug_unit_word c :
  isSlugUnit c = true -> cls_word c || (c =? DASH)%N = true.
Proof.
  unfold isSlugUnit, cls_word. intros H.
  apply orb_true_iff in H. destruct H as [H|H];
    [|rewrite H; apply orb_true_r].
  apply orb_true_iff in H. destruct H as [H|H]; rewrite H;
    rewrite ?orb_true_r; reflexivity.
Qed.

Section Slugs.
Variable unicodeLower : jsstring -> jsstring.

Lemma sluggify_units (text : jsstring) :
  forallb isSlugUnit (sluggify unicodeLower text) = true.
Proof.
  unfold sluggify, notSlugRegex. rewrite replaceAll_char_delete.
  apply forallb_forall. intros c Hc. apply filter_In in Hc.
  destruct Hc as [_ Hc]. unfold cls_not_slug in Hc.
  rewrite negb_involutive in Hc. exact Hc.
Qed.

(** A string of slug units is its own slug. *)
Lemma sluggify_fixed (v : jsstring) :
  forallb isSlugUnit v = true -> sluggify unicodeLower v = v.
Proof.
  intros Hv.
  assert (Hfacts : forall c, In c v ->
            isAscii c = true /\ cls_space c = false
            /\ asciiLower c = c).
  { intros c Hc. rewrite forallb_forall in Hv. pose proof (Hv c Hc) as Hs.
    pose proof (slug_unit_word c Hs) as Hw.
    pose proof (word_or_dash_ascii c Hw) as Ha.
    pose proof (slug_unit_facts c Ha) as F. rewrite Hw, Hs in F.
    cbn [implb] in F.
    repeat (apply andb_true_iff in F; destruct F as [F ?]).
    repeat split; [exact Ha| |].
    - apply negb_true_iff. exact F.
    - apply N.eqb_eq. assumption. }
  unfold sluggify, spacesRegex, notSlugRegex.
  rewrite toLowerCase_ascii
    by (apply forallb_forall; intros c Hc; apply (Hfacts c Hc)).
  rewrite (map_id_in asciiLower v) by (intros c Hc; apply (Hfacts c Hc)).
  rewrite replaceAll_plus. unfold collapseRuns.
  rewrite collapseFrom_none.
  - rewrite replaceAll_char_delete. apply filter_all.
    revert Hv. apply forallb_impl. intros c Hc. unfold cls_not_slug.
    rewrite negb_involutive. exact Hc.
  - apply forallb_forall. intros c Hc. apply negb_true_iff.
    apply (Hfacts c Hc).
Qed.

(** X14. The slug of a slug is that slug: [sluggify] applied twice gives
    what it gives applied once. *)
Theorem sluggify_idempotent (text : jsstring) :
  sluggify unicodeLower (sluggify unicodeLower text)
  = sluggify unicodeLower text.
Proof. apply sluggify_fixed. apply sluggify_units. Qed.

End Slugs.
Lemma asciiLower_not_upper c :
  isAscii c = true -> negb (isUpperAZ (asciiLower c)) = true.
Proof. revert c. apply ascii_check. vm_compute. reflexivity. Qed.

(** Collapsing runs that are single dashes already changes nothing. *)
Lemma collapseFrom_single_dashes (p : code_unit -> bool) :
  forall s,
    forallb (fun c => eqb (p c) (c =? DASH)%N) s = true ->
    noDoubleDash s = true ->
    collapseFrom p [DASH] false s = s
    /\ (hd 0%N s <> DASH -> collapseFrom p [DASH] true s = s).
Proof.
  induction s as [|c t IH]; intros Hp Hnd; [split; reflexivity|].
  cbn [forallb] in Hp. apply andb_true_iff in Hp. destruct Hp as [Hc Ht].
  apply eqb_prop in Hc.
  cbn [noDoubleDash] in Hnd. apply andb_true_iff in Hnd.
  destruct Hnd as [Hcd Hnd]. destruct (IH Ht Hnd) as [IHf IHt].
  cbn [collapseFrom hd]. rewrite Hc.
  destruct (c =? DASH)%N eqn:E.
  - apply N.eqb_eq in E. subst c. split.
    + cbn [app]. f_equal. apply IHt.
      cbn [andb negb] in Hcd. apply negb_true_iff, N.eqb_neq in Hcd.
      exact Hcd.
    + intros H. contradiction H. reflexivity.
  - rewrite IHf. split; reflexivity.
Qed.

Section Ids.
Variable unicodeLower : jsstring -> jsstring.

(** A well-formed id without capital letters is its own id. *)
Lemma headingId_fixed (v : jsstring) :
  wellFormedId v ->
  forallb (fun c => negb (isUpperAZ c)) v = true ->
  headingId unicodeLower v = v.
Proof.
  intros (Hchars & Hhd & Hlast & Hnd) Hlow.
  assert (Hfacts : forall c, In c v ->
            isAscii c = true /\ asciiLower c = c
            /\ cls_not_word c = (c =? DASH)%N).
  { intros c Hc. rewrite forallb_forall in Hchars, Hlow.
    pose proof (Hchars c Hc) as Hw. pose proof (Hlow c Hc) as Hu.
    pose proof (word_or_dash_ascii c Hw) as Ha.
    pose proof (slug_unit_facts c Ha) as F. rewrite Hw, Hu in F.
    cbn [implb] in F.
    repeat (apply andb_true_iff in F; destruct F as [F ?]).
    repeat split; [exact Ha| |].
    - apply N.eqb_eq. assumption.
    - apply eqb_prop. assumption. }
  unfold headingId, notWordRegex.
  rewrite toLowerCase_ascii
    by (apply forallb_forall; intros c Hc; apply (Hfacts c Hc)).
  rewrite (map_id_in asciiLower v) by (intros c Hc; apply (Hfacts c Hc)).
  rewrite replaceAll_plus. unfold collapseRuns.
  destruct (collapseFrom_single_dashes cls_not_word v) as [E _].
  - apply forallb_forall. intros c Hc.
    destruct (Hfacts c Hc) as (_ & _ & ->). apply eqb_reflx.
  - exact Hnd.
  - change (lit "-") with [DASH]. rewrite E.
    apply replaceAll_edge_none; assumption.
Qed.

Lemma headingId_no_capitals (text : jsstring) :
  forallb isAscii text = true ->
  forallb (fun c => negb (isUpperAZ c)) (headingId unicodeLower text) = true.
Proof.
  intros Ha. unfold headingId, notWordRegex.
  rewrite toLowerCase_ascii by assumption.
  rewrite replaceAll_plus, replaceAll_edge. unfold collapseRuns.
  set (v := collapseFrom cls_not_word (lit "-") false (map asciiLower text)).
  assert (Hv : forallb (fun c => negb (isUpperAZ c)) v = true).
  { apply collapseFrom_forallb; [reflexivity|].
    rewrite forallb_map. apply forallb_forall. intros c Hc.
    rewrite forallb_forall in Ha.
    rewrite (asciiLower_not_upper c (Ha c Hc)). apply orb_true_r. }
  destruct (dropRun_suffix (cls_is DASH) v) as [w1 Hw1].
  destruct (stripTrailing_prefix (cls_is DASH) (dropRun (cls_is DASH) v))
    as [w2 Hw2].
  rewrite Hw1 in Hv. apply forallb_app_r in Hv.
  rewrite Hw2 in Hv. apply forallb_app_l in Hv. exact Hv.
Qed.

(** X15. For an ASCII heading text, the id of its id is that id. *)
Theorem headingId_idempotent_on_ascii (text : jsstring) :
  forallb isAscii text = true ->
  headingId unicodeLower (headingId unicodeLower text)
  = headingId unicodeLower text.
Proof.
  intros Ha. apply headingId_fixed; [|apply headingId_no_capitals; exact Ha].
  unfold headingId, notWordRegex.
  rewrite replaceAll_plus, replaceAll_edge. unfold collapseRuns.
  apply stripped_collapse_well_formed.
Qed.

End Ids.

Lemma headingId_idempotent_on_ascii_witness :
  forallb isAscii (lit "  --What's _new_?  ") = true
  /\ headingId (fun s => s) (lit "  --What's _new_?  ") = lit "what-s-_new_"
  /\ headingId (fun s => s) (lit "what-s-_new_") = lit "what-s-_new_".
Proof.
  split; [reflexivity|]. split; [reflexivity|].
  apply (headingId_idempotent_on_ascii (fun s => s)
           (lit "  --What's _new_?  ")).
  reflexivity.
Defined.

(* ------------------------------------------------------------------ *)
(** ** The paths discovery returns *)

Section Discovery.
Variable path_join : list jsstring -> jsstring.

Lemma getAllIndexMDXFiles_spec dir entries :
  getAllIndexMDXFiles path_join dir entries
  = indexPaths (allFiles path_join dir entries).
Proof.
  unfold getAllIndexMDXFiles, allFiles.
  rewrite (fold_left_ext_in _
             (fun fs e => fs ++ indexPaths
                (filesUnder path_join (path_join [dir; fst e]) (fst e)
                   (snd e)))).
  - rewrite fold_entries. cbn [app]. unfold indexPaths.
    apply flat_map_filter_map.
  - intros a e _. apply filesOfEntry_spec.
Qed.

(** Every file of a walk is named by joining a directory and its name. *)
Lemma filesUnder_joined :
  forall node dir name p n,
    In (p, n) (filesUnder path_join (path_join [dir; name]) name node) ->
    exists d, p = path_join [d; n].
Proof.
  induction node as [| |entries IH] using fsnode_nested_ind;
    intros dir name p n Hin.
  - cbn in Hin. destruct Hin as [H|[]]. injection H as <- <-.
    exists dir. reflexivity.
  - destruct Hin.
  - cbn [filesUnder] in Hin. apply in_flat_map in Hin.
    destruct Hin as [e [He Hin]]. rewrite Forall_forall in IH.
    apply (IH e He _ _ _ _ Hin).
Qed.

(** X16. Every path discovery returns is the join of a directory path
    and [index.mdx]. *)
Theorem discovered_paths_end_in_index (dir : jsstring)
  (entries : list (jsstring * fsnode)) (p : jsstring) :
  In p (getAllIndexMDXFiles path_join dir entries) ->
  exists d, p = path_join [d; lit "index.mdx"].
Proof.
  rewrite getAllIndexMDXFiles_spec. unfold indexPaths. intros Hin.
  apply in_map_iff in Hin. destruct Hin as [[p' n] [Hp Hin]].
  cbn in Hp. subst p'. apply filter_In in Hin. destruct Hin as [Hin Hn].
  unfold isIndexFile in Hn. cbn [snd] in Hn. apply jsstring_eqb_eq in Hn.
  subst n. unfold allFiles in Hin. apply in_flat_map in Hin.
  destruct Hin as [e [_ Hin]]. apply (filesUnder_joined _ _ _ _ _ Hin).
Qed.

End Discovery.

Lemma discovered_paths_end_in_index_witness :
  exists d, lit "/site/contents/docs/a/b/index.mdx"
            = demoJoin [d; lit "index.mdx"].
Proof.
  apply (discovered_paths_end_in_index demoJoin (lit "/site/contents/docs")
           demoTree).
  right. left. reflexivity.
Defined.
